(** * face-looker: the gaze quantizer and the tracker instance of
      [src/face-tracker.js]

    The file embeds the JavaScript of [face-tracker.js] and proves the
    properties its specification states about it.

    Numbers.  A JavaScript number is modelled by [number]: [NaN], the two
    infinities, or a finite value carried as a rational.  The four
    arithmetic operations round their exact result to binary64 (53 bits, ties
    to even, gradual underflow, overflow to an infinity), as the source's
    [+], [-], [*] and [/] do.  The sign of zero is not tracked and a zero
    divisor is taken to be [+0].  Strings are [String.string]. *)

From Stdlib Require Import ZArith QArith Qround Qabs Qpower Qreduction.
From Stdlib Require Import Lia Lqa Bool List.
From Stdlib Require Import Ascii String DecimalString DecimalPos DecimalN.
Import ListNotations.

Open Scope Q_scope.

(* ------------------------------------------------------------------ *)
(** ** JavaScript numbers *)

Inductive number : Type :=
| NaN
| PosInf
| NegInf
| Fin (q : Q).

Declare Scope js_scope.
Delimit Scope js_scope with js.
Bind Scope js_scope with number.

Definition Qltb (a b : Q) : bool := negb (Qle_bool b a).

Definition num_of_Z (z : Z) : number := Fin (inject_Z z).

(** *** Rounding to binary64 *)

(** The exponent [e] with [2^e <= x < 2^(e+1)], for [x > 0]. *)
Definition Qlog2 (x : Q) : Z :=
  let e := (Z.log2 (Qnum x) - Z.log2 (Zpos (Qden x)))%Z in
  if Qle_bool (2 ^ e) x then e else (e - 1)%Z.

(** The integer nearest to [x], a tie going to the even one. *)
Definition nearest_even (x : Q) : Z :=
  let f := Qfloor x in
  let d := x - inject_Z f in
  if Qltb d (1 # 2) then f
  else if Qltb (1 # 2) d then (f + 1)%Z
  else if Z.even f then f else (f + 1)%Z.

(** The exponent of the last place of the binary64 numbers around [a > 0]:
    53 significant bits, and no exponent below that of the subnormals. *)
Definition expo (a : Q) : Z := (Z.max (Qlog2 a) (-1022) - 52)%Z.

(** [a > 0] rounded to a multiple of [2 ^ expo a]. *)
Definition round_pos (a : Q) : Q :=
  inject_Z (nearest_even (a / 2 ^ expo a)) * 2 ^ expo a.

(** The binary64 number nearest to [x]: an infinity when the rounded
    magnitude reaches [2^1024], the value in lowest terms otherwise. *)
Definition round64 (x : Q) : number :=
  if Qeq_bool x 0 then Fin 0
  else if Qltb x 0 then
    let r := round_pos (- x) in
    if Qle_bool (2 ^ 1024) r then NegInf else Fin (Qred (- r))
  else
    let r := round_pos x in
    if Qle_bool (2 ^ 1024) r then PosInf else Fin (Qred r).

(** *** Arithmetic *)

Definition neg (a : number) : number :=
  match a with
  | NaN => NaN
  | PosInf => NegInf
  | NegInf => PosInf
  | Fin q => Fin (- q)
  end.

Definition add (a b : number) : number :=
  match a, b with
  | NaN, _ | _, NaN => NaN
  | PosInf, NegInf | NegInf, PosInf => NaN
  | PosInf, _ | _, PosInf => PosInf
  | NegInf, _ | _, NegInf => NegInf
  | Fin x, Fin y => round64 (x + y)
  end.

Definition sub (a b : number) : number :=
  match a, b with
  | NaN, _ | _, NaN => NaN
  | PosInf, PosInf | NegInf, NegInf => NaN
  | PosInf, _ | _, NegInf => PosInf
  | NegInf, _ | _, PosInf => NegInf
  | Fin x, Fin y => round64 (x - y)
  end.

(** The infinity that results from multiplying or dividing an infinity
    ([positive] tells which one) by the finite [q]; a [q] that is zero counts
    as [+0]. *)
Definition signed_inf (positive : bool) (q : Q) : number :=
  if Bool.eqb positive (Qltb q 0) then NegInf else PosInf.

Definition mul (a b : number) : number :=
  match a, b with
  | NaN, _ | _, NaN => NaN
  | PosInf, PosInf | NegInf, NegInf => PosInf
  | PosInf, NegInf | NegInf, PosInf => NegInf
  | PosInf, Fin q | Fin q, PosInf =>
      if Qeq_bool q 0 then NaN else signed_inf true q
  | NegInf, Fin q | Fin q, NegInf =>
      if Qeq_bool q 0 then NaN else signed_inf false q
  | Fin x, Fin y => round64 (x * y)
  end.

Definition div (a b : number) : number :=
  match a, b with
  | NaN, _ | _, NaN => NaN
  | (PosInf | NegInf), (PosInf | NegInf) => NaN
  | PosInf, Fin q => signed_inf true q
  | NegInf, Fin q => signed_inf false q
  | Fin _, (PosInf | NegInf) => Fin 0
  | Fin x, Fin y =>
      if Qeq_bool y 0
      then (if Qeq_bool x 0 then NaN else if Qltb x 0 then NegInf else PosInf)
      else round64 (x / y)
  end.

Infix "+" := add : js_scope.
Infix "-" := sub : js_scope.
Infix "*" := mul : js_scope.
Infix "/" := div : js_scope.
Notation "- x" := (neg x) : js_scope.

(** [a <= b] on numbers that are not [NaN]. *)
Definition leb (a b : number) : bool :=
  match a, b with
  | NaN, _ | _, NaN => false
  | NegInf, _ | _, PosInf => true
  | _, NegInf | PosInf, _ => false
  | Fin x, Fin y => Qle_bool x y
  end.

(** [Math.max(a, b)] and [Math.min(a, b)]: [NaN] when an argument is. *)
Definition Math_max (a b : number) : number :=
  match a, b with
  | NaN, _ | _, NaN => NaN
  | _, _ => if leb a b then b else a
  end.

Definition Math_min (a b : number) : number :=
  match a, b with
  | NaN, _ | _, NaN => NaN
  | _, _ => if leb a b then a else b
  end.

(** [Math.round]: the nearest integer, a tie going to the one closer to
    [+Infinity]; that is [floor (x + 1/2)]. *)
Definition round_half_up (x : Q) : Z := Qfloor (x + (1 # 2)).

Definition Math_round (a : number) : number :=
  match a with
  | Fin x => num_of_Z (round_half_up x)
  | _ => a
  end.

(** The truthiness test of [v || 0] on a number: [0] and [NaN] are falsy. *)
Definition or_zero (a : number) : number :=
  match a with
  | NaN => Fin 0
  | Fin x => if Qeq_bool x 0 then Fin 0 else a
  | _ => a
  end.

(* ------------------------------------------------------------------ *)
(** ** Grid configuration and the quantizer (lines 1-15) *)

Definition P_MIN : number := num_of_Z (-15).
Definition P_MAX : number := num_of_Z 15.
Definition STEP : number := num_of_Z 3.
Definition SIZE : Z := 256.

Definition clamp (value min max : number) : number :=
  Math_max min (Math_min max value).

Definition quantizeToGrid (val : number) : number :=
  let raw := (P_MIN + (val + num_of_Z 1) * (P_MAX - P_MIN) / num_of_Z 2)%js in
  let snapped := (Math_round (raw / STEP) * STEP)%js in
  clamp snapped P_MIN P_MAX.

(** The two per-axis calls of [setFromClient] (lines 62-63) and of
    [handleOrientation] (lines 105-106). *)
Definition quantize (x y : number) : number * number :=
  (quantizeToGrid x, quantizeToGrid y).

(* ------------------------------------------------------------------ *)
(** ** Number formatting and the file name (lines 17-24) *)

Open Scope string_scope.

Definition digits (n : N) : string := NilZero.string_of_uint (N.to_uint n).

(** [Number.prototype.toFixed(1)].  For a finite [x]: the sign is split off,
    [n] is the integer nearest to [10 * |x|] (the larger one on a tie), its
    digits are padded to two and the point goes before the last one.  The
    host prints values of magnitude [10^21] and more in exponent notation
    instead; the program formats grid coordinates (see
    [quantizeToGrid_image]) and tilt angles only, so that branch is outside
    the model. *)
Definition toFixed1 (a : number) : string :=
  match a with
  | NaN => "NaN"
  | PosInf => "Infinity"
  | NegInf => "-Infinity"
  | Fin x =>
      let s := if Qltb x 0 then "-" else "" in
      let x := if Qltb x 0 then (- x)%Q else x in
      let n := Qfloor (x * 10 + (1 # 2)) in
      let m := digits (Z.to_N n) in
      let m := if (length m <=? 1)%nat then "0" ++ m else m in
      let k := length m in
      s ++ substring 0 (k - 1) m ++ "." ++ substring (k - 1) 1 m
  end.

(** [str.replace(c, d)] with one-character strings: the first occurrence
    only. *)
Fixpoint replace (c d : ascii) (str : string) : string :=
  match str with
  | EmptyString => EmptyString
  | String a rest =>
      if Ascii.eqb a c then String d rest else String a (replace c d rest)
  end.

Definition sanitize (val : number) : string :=
  let str := toFixed1 val in
  replace "." "p" (replace "-" "m" str).

(** Template-literal interpolation of an integer constant. *)
Definition Z_to_string (z : Z) : string := NilZero.string_of_int (Z.to_int z).

Definition gridToFilename (px py : number) : string :=
  "gaze_px" ++ sanitize px ++ "_py" ++ sanitize py ++ "_"
    ++ Z_to_string SIZE ++ ".webp".

(** Interpolation of [Math.round(x)], which is an integer or is not finite;
    as for [toFixed1], magnitudes from [10^21] on are outside the model. *)
Definition round_to_string (a : number) : string :=
  match Math_round a with
  | NaN => "NaN"
  | PosInf => "Infinity"
  | NegInf => "-Infinity"
  | Fin q => Z_to_string (Qfloor q)
  end.

(** [updateDebug] (lines 26-29); [debugEl] is [None] for [null] and holds
    the element's [innerHTML] otherwise. *)
Definition updateDebug (debugEl : option string) (x y : number)
    (filename : string) : option string :=
  match debugEl with
  | None => None
  | Some _ =>
      Some ("Mouse: (" ++ round_to_string x ++ ", " ++ round_to_string y
              ++ ")<br/>Image: " ++ filename)
  end.

(* ------------------------------------------------------------------ *)
(** ** One tracker instance (lines 31-136) *)

(** What [initializeFaceTracker] reads from its container: the two
    [data-] attributes, absent ones being [None]. *)
Record Container : Type := mkContainer {
  dataset_basePath : option string;
  dataset_debug : option string
}.

(** The result of [container.getBoundingClientRect()]. *)
Record DOMRect : Type := mkRect {
  left : number;
  top : number;
  width : number;
  height : number
}.

Record Orientation : Type := mkOrientation {
  beta : number;
  gamma : number
}.

(** The closure of one instance: its two constants, the two DOM elements it
    writes, and its three [let] variables. *)
Record Tracker : Type := mkTracker {
  basePath : string;
  img_src : string;
  debugEl : option string;
  useOrientation : bool;
  baseOrientation : Orientation;
  hasCalibrated : bool
}.

Record TouchPoint : Type := mkTouch {
  touch_clientX : number;
  touch_clientY : number
}.

(** A [deviceorientation] event: [beta] and [gamma] are nullable. *)
Record OrientationEvent : Type := mkOrientationEvent {
  e_beta : option number;
  e_gamma : option number
}.

(** [v || 0] for a nullable number. *)
Definition nullable_or_zero (v : option number) : number :=
  match v with
  | None => Fin 0
  | Some a => or_zero a
  end.

Definition setFromClient (rect : DOMRect) (clientX clientY : number)
    (t : Tracker) : Tracker :=
  let centerX := (left rect + width rect / num_of_Z 2)%js in
  let centerY := (top rect + height rect / num_of_Z 2)%js in
  let nx := ((clientX - centerX) / (width rect / num_of_Z 2))%js in
  let ny := ((centerY - clientY) / (height rect / num_of_Z 2))%js in
  let clampedX := clamp nx (num_of_Z (-1)) (num_of_Z 1) in
  let clampedY := clamp ny (num_of_Z (-1)) (num_of_Z 1) in
  let px := quantizeToGrid clampedX in
  let py := quantizeToGrid clampedY in
  let filename := gridToFilename px py in
  let imagePath := basePath t ++ filename in
  {| basePath := basePath t;
     img_src := imagePath;
     debugEl := updateDebug (debugEl t) (clientX - left rect)%js
                  (clientY - top rect)%js filename;
     useOrientation := useOrientation t;
     baseOrientation := baseOrientation t;
     hasCalibrated := hasCalibrated t |}.

Definition handleMouseMove (rect : DOMRect) (clientX clientY : number)
    (t : Tracker) : Tracker :=
  setFromClient rect clientX clientY t.

(** [e.touches] may be missing ([None]) or empty; only a first touch point
    moves the gaze and switches orientation mode off. *)
Definition handleTouch (rect : DOMRect) (touches : option (list TouchPoint))
    (t : Tracker) : Tracker :=
  match touches with
  | Some (p :: _) =>
      let t' := setFromClient rect (touch_clientX p) (touch_clientY p) t in
      {| basePath := basePath t';
         img_src := img_src t';
         debugEl := debugEl t';
         useOrientation := false;
         baseOrientation := baseOrientation t';
         hasCalibrated := hasCalibrated t' |}
  | _ => t
  end.

Definition handleOrientation (e : OrientationEvent) (t : Tracker) : Tracker :=
  if negb (useOrientation t) then t
  else
    let base :=
      if negb (hasCalibrated t)
      then {| beta := nullable_or_zero (e_beta e);
              gamma := nullable_or_zero (e_gamma e) |}
      else baseOrientation t in
    let beta := (nullable_or_zero (e_beta e) - beta base)%js in
    let gamma := (nullable_or_zero (e_gamma e) - gamma base)%js in
    let nx := clamp (- gamma / num_of_Z 30)%js (num_of_Z (-1)) (num_of_Z 1) in
    let ny := clamp (- beta / num_of_Z 30)%js (num_of_Z (-1)) (num_of_Z 1) in
    let px := quantizeToGrid nx in
    let py := quantizeToGrid ny in
    let filename := gridToFilename px py in
    let imagePath := basePath t ++ filename in
    {| basePath := basePath t;
       img_src := imagePath;
       debugEl :=
         match debugEl t with
         | None => None
         | Some _ =>
             Some ("Orientation Mode<br/>Beta: " ++ toFixed1 beta
                     ++ ", Gamma: " ++ toFixed1 gamma
                     ++ "<br/>Image: " ++ filename)
         end;
       useOrientation := useOrientation t;
       baseOrientation := base;
       hasCalibrated := true |}.

Definition enableOrientation (t : Tracker) : Tracker :=
  {| basePath := basePath t;
     img_src := img_src t;
     debugEl := debugEl t;
     useOrientation := true;
     baseOrientation := baseOrientation t;
     hasCalibrated := false |}.

Definition disableOrientation (t : Tracker) : Tracker :=
  {| basePath := basePath t;
     img_src := img_src t;
     debugEl := debugEl t;
     useOrientation := false;
     baseOrientation := baseOrientation t;
     hasCalibrated := hasCalibrated t |}.

(** [initializeFaceTracker]: [rect] is the container's rectangle at the
    time of the call.  An absent or empty [data-base-path] gives
    ["/faces/"]; the debug element exists when [data-debug] is ["true"]. *)
Definition initializeFaceTracker (container : Container) (rect : DOMRect)
    : Tracker :=
  let basePath :=
    match dataset_basePath container with
    | None | Some "" => "/faces/"
    | Some p => p
    end in
  let showDebug :=
    match dataset_debug container with
    | Some d => String.eqb d "true"
    | None => false
    end in
  let t0 :=
    {| basePath := basePath;
       img_src := "";
       debugEl := if showDebug then Some "" else None;
       useOrientation := false;
       baseOrientation := {| beta := Fin 0; gamma := Fin 0 |};
       hasCalibrated := false |} in
  setFromClient rect (left rect + width rect / num_of_Z 2)%js
    (top rect + height rect / num_of_Z 2)%js t0.

(** The events an instance receives once it is set up: the three listeners
    and the two functions of the returned API. *)
Inductive Event : Type :=
| MouseMove (rect : DOMRect) (clientX clientY : number)
| Touch (rect : DOMRect) (touches : option (list TouchPoint))
| DeviceOrientation (e : OrientationEvent)
| EnableOrientation
| DisableOrientation.

Definition step (t : Tracker) (ev : Event) : Tracker :=
  match ev with
  | MouseMove rect x y => handleMouseMove rect x y t
  | Touch rect touches => handleTouch rect touches t
  | DeviceOrientation e => handleOrientation e t
  | EnableOrientation => enableOrientation t
  | DisableOrientation => disableOrientation t
  end.

Definition run (t : Tracker) (evs : list Event) : Tracker :=
  fold_left step evs t.

(* ------------------------------------------------------------------ *)
(** ** The operations as the specification words them *)

(** The valid values of one grid axis. *)
Definition grid : list Z := [-15; -12; -9; -6; -3; 0; 3; 6; 9; 12; 15]%Z.

Definition clampZ (z lo hi : Z) : Z := Z.max lo (Z.min hi z).

Definition clampQ (v lo hi : Q) : Q :=
  if Qle_bool v lo then lo else if Qle_bool hi v then hi else v.

(** Step 2 of quantize: [raw = P_MIN + (v + 1) * (P_MAX - P_MIN) / 2]. *)
Definition linear_map (v : Q) : Q :=
  inject_Z (-15) + (v + inject_Z 1) * (inject_Z 15 - inject_Z (-15)) / inject_Z 2.


(** The two tie-break rules the specification names. *)
Definition round_half_away (x : Q) : Z :=
  if Qltb x 0 then (- Qfloor (- x + (1 # 2)))%Z else Qfloor (x + (1 # 2)).

Definition round_half_even (x : Q) : Z :=
  let f := Qfloor x in
  let d := x - inject_Z f in
  if Qltb d (1 # 2) then f
  else if Qltb (1 # 2) d then (f + 1)%Z
  else if Z.even f then f else (f + 1)%Z.

(** [x] is exactly halfway between two integers. *)
Definition is_tie (x : Q) : Prop := exists k : Z, x == inject_Z k + (1 # 2).

(** The quantizer resolves every exact half-step input as [rnd] does. *)
Definition ties_resolved_by (rnd : Q -> Z) : Prop :=
  forall v : Q,
    is_tie (linear_map v / inject_Z 3) ->
    quantizeToGrid (Fin v)
    = num_of_Z (clampZ (rnd (linear_map v / inject_Z 3) * 3) (-15) 15).

(** A coordinate with one fractional digit, and its encoding with [m] for
    the minus sign and [p] for the point. *)
Definition fixed1 (k : Z) : string :=
  (if (k <? 0)%Z then "-" else "") ++ digits (Z.abs_N k) ++ ".0".

Definition encode_coord (k : Z) : string :=
  (if (k <? 0)%Z then "m" else "") ++ digits (Z.abs_N k) ++ "p0".

Definition encode (px py size : Z) : string :=
  "gaze_px" ++ encode_coord px ++ "_py" ++ encode_coord py ++ "_"
    ++ Z_to_string size ++ ".webp".

Definition grid_pairs : list (Z * Z) := list_prod grid grid.

(** Reading a grid coordinate back from an asset identifier: the grid cell
    whose file name it is. *)
Definition decode (id : string) : option (Z * Z) :=
  find (fun p => String.eqb (gridToFilename (num_of_Z (fst p)) (num_of_Z (snd p))) id)
       grid_pairs.

(** Equality of numbers up to the representation of the rational. *)
Definition num_eq (a b : number) : Prop :=
  match a, b with
  | NaN, NaN | PosInf, PosInf | NegInf, NegInf => True
  | Fin x, Fin y => x == y
  | _, _ => False
  end.

Definition is_finite (a : number) : bool :=
  match a with
  | Fin _ => true
  | _ => false
  end.

(** Touch and pointer input, as opposed to tilt readings and API calls. *)
Definition is_pointer_input (ev : Event) : bool :=
  match ev with
  | MouseMove _ _ _ | Touch _ _ => true
  | _ => false
  end.

(** A run of events inside one enabled session: orientation mode is not
    enabled again. *)
Definition same_session (evs : list Event) : Prop :=
  Forall (fun ev => ev <> EnableOrientation) evs.

(** An orientation event from optional real readings. *)
Definition reading (b g : option Q) : OrientationEvent :=
  {| e_beta := option_map Fin b; e_gamma := option_map Fin g |}.

Definition value_or_zero (o : option Q) : Q :=
  match o with
  | Some q => q
  | None => 0
  end.

(** The tilt normalization of [handleOrientation] (lines 96-103), step by
    step: the difference of a reading from the baseline, and the sample
    [clamp(-delta / 30, -1, 1)], in the arithmetic of the program. *)
Definition tilt_delta (value baseline : Q) : number :=
  (Fin value - Fin baseline)%js.

Definition tilt_sample (value baseline : Q) : number :=
  clamp (- tilt_delta value baseline / num_of_Z 30)%js
        (num_of_Z (-1)) (num_of_Z 1).

(** 27 + 2^-48, the binary64 number that follows 27. *)
Definition after_27 : Q := 27 + (1 # 281474976710656).

(** The cells of the grid.  Cell [k], for [k] from -5 to 5, is centered at
    [k / 5] and has the grid value [3 * k]; its borders with its neighbours
    are the odd multiples of 1/10.  [margin] is 2^-52, the distance from a
    border within which the rounding of the arithmetic decides the cell. *)
Definition margin : Q := 1 # 4503599627370496.

Definition cell_low (k : Z) : Q := (2 * inject_Z k - 1) / 10 + margin.

Definition cell_high (k : Z) : Q := (2 * inject_Z k + 1) / 10 - margin.

(** The binary64 number nearest to [q], for a [q] that does not overflow:
    what a decimal literal denotes in the program. *)
Definition nearest (q : Q) : Q :=
  match round64 q with
  | Fin d => d
  | _ => 0
  end.

(** The binary64 numbers nearest to 3/10 and to 1/2 from below. *)
Definition double_0_3 : Q := 5404319552844595 # 18014398509481984.

Definition below_half : Q := 9007199254740991 # 18014398509481984.

(** The order of the numbers that are not [NaN]. *)
Definition num_le (a b : number) : Prop := leb a b = true.

Definition center_asset : string := "gaze_px0p0_py0p0_256.webp".

(* ------------------------------------------------------------------ *)
(** ** The page: all instances and the orientation button (lines 138-190) *)

(** What the page's script reads from the platform: whether
    [DeviceOrientationEvent.requestPermission] is a function, and the
    message of the [TypeError] raised by an assignment to a property of
    [null]. *)
Record Platform : Type := mkPlatform {
  has_requestPermission : bool;
  null_property_message : string
}.

(** The state of the page once [DOMContentLoaded] has run, for a page that
    has the [#orientationBtn] button (without it no click handler is
    installed).  [header_text] is [None] when there is no [.header]
    element.  [pending] counts the permission requests that are awaited;
    [alerts] and [console_errors] record the calls of [alert] and
    [console.error], latest first. *)
Record Page : Type := mkPage {
  trackerInstances : list Tracker;
  isOrientationMode : bool;
  orientationBtn_text : string;
  header_text : option string;
  pending : nat;
  alerts : list string;
  console_errors : list (string * string)
}.

(** The [DOMContentLoaded] handler: one instance per [.face-tracker]
    element, each given with its rectangle at that time. *)
Definition page_load (containers : list (Container * DOMRect))
    (btn_text : string) (header : option string) : Page :=
  {| trackerInstances :=
       map (fun cr => initializeFaceTracker (fst cr) (snd cr)) containers;
     isOrientationMode := false;
     orientationBtn_text := btn_text;
     header_text := header;
     pending := 0;
     alerts := [];
     console_errors := [] |}.

(** [enableOrientationMode] (lines 177-182).  The result carries the message
    of the exception when the last assignment throws because there is no
    header; the assignments before it have taken place. *)
Definition enableOrientationMode (pf : Platform) (p : Page)
    : Page * option string :=
  let p1 :=
    {| trackerInstances := map enableOrientation (trackerInstances p);
       isOrientationMode := true;
       orientationBtn_text := "Disable Motion Tracking";
       header_text := header_text p;
       pending := pending p;
       alerts := alerts p;
       console_errors := console_errors p |} in
  match header_text p with
  | None => (p1, Some (null_property_message pf))
  | Some _ =>
      ({| trackerInstances := trackerInstances p1;
          isOrientationMode := isOrientationMode p1;
          orientationBtn_text := orientationBtn_text p1;
          header_text := Some "Tilt your phone - face looks at you!";
          pending := pending p1;
          alerts := alerts p1;
          console_errors := console_errors p1 |}, None)
  end.

(** [disableOrientationMode] (lines 184-189). *)
Definition disableOrientationMode (pf : Platform) (p : Page)
    : Page * option string :=
  let p1 :=
    {| trackerInstances := map disableOrientation (trackerInstances p);
       isOrientationMode := false;
       orientationBtn_text := "Enable Motion Tracking";
       header_text := header_text p;
       pending := pending p;
       alerts := alerts p;
       console_errors := console_errors p |} in
  match header_text p with
  | None => (p1, Some (null_property_message pf))
  | Some _ =>
      ({| trackerInstances := trackerInstances p1;
          isOrientationMode := isOrientationMode p1;
          orientationBtn_text := orientationBtn_text p1;
          header_text := Some "Move your cursor or tap anywhere";
          pending := pending p1;
          alerts := alerts p1;
          console_errors := console_errors p1 |}, None)
  end.

Definition with_instances (ts : list Tracker) (p : Page) : Page :=
  {| trackerInstances := ts;
     isOrientationMode := isOrientationMode p;
     orientationBtn_text := orientationBtn_text p;
     header_text := header_text p;
     pending := pending p;
     alerts := alerts p;
     console_errors := console_errors p |}.

Definition with_pending (n : nat) (p : Page) : Page :=
  {| trackerInstances := trackerInstances p;
     isOrientationMode := isOrientationMode p;
     orientationBtn_text := orientationBtn_text p;
     header_text := header_text p;
     pending := n;
     alerts := alerts p;
     console_errors := console_errors p |}.

Definition alert (message : string) (p : Page) : Page :=
  {| trackerInstances := trackerInstances p;
     isOrientationMode := isOrientationMode p;
     orientationBtn_text := orientationBtn_text p;
     header_text := header_text p;
     pending := pending p;
     alerts := message :: alerts p;
     console_errors := console_errors p |}.

Definition console_error (label message : string) (p : Page) : Page :=
  {| trackerInstances := trackerInstances p;
     isOrientationMode := isOrientationMode p;
     orientationBtn_text := orientationBtn_text p;
     header_text := header_text p;
     pending := pending p;
     alerts := alerts p;
     console_errors := (label, message) :: console_errors p |}.

(** The [catch] clause of the click handler (lines 163-166). *)
Definition catch_permission_error (message : string) (p : Page) : Page :=
  alert ("Error enabling motion tracking: " ++ message)
    (console_error "Error requesting device orientation permission:" message p).

(** Calling the listeners of all instances, in registration order; the
    [i]-th instance reads the rectangle of its own container. *)
Fixpoint dispatch (f : nat -> Tracker -> Tracker) (i : nat)
    (ts : list Tracker) : list Tracker :=
  match ts with
  | [] => []
  | t :: rest => f i t :: dispatch f (S i) rest
  end.

(** What happens on the page.  The window events reach every instance;
    [rect_of i] is the rectangle of the [i]-th container at that time.  A
    click on the button and the settling of the permission promise it may
    await are separate events, so that other events can come in between. *)
Inductive PageEvent : Type :=
| WindowMouseMove (rect_of : nat -> DOMRect) (clientX clientY : number)
| WindowTouch (rect_of : nat -> DOMRect) (touches : option (list TouchPoint))
| WindowOrientation (e : OrientationEvent)
| ButtonClick
| PermissionResolved (permission : string)
| PermissionRejected (message : string).

(** The click handler (lines 152-174), up to its [await]; an exception of
    [enableOrientationMode] or [disableOrientationMode] outside the [try]
    rejects the handler's promise and has no further effect. *)
Definition click (pf : Platform) (p : Page) : Page :=
  if negb (isOrientationMode p) then
    if has_requestPermission pf
    then with_pending (S (pending p)) p
    else fst (enableOrientationMode pf p)
  else fst (disableOrientationMode pf p).

(** The click handler after its [await], inside the [try]. *)
Definition permission_resolved (pf : Platform) (permission : string)
    (p : Page) : Page :=
  match pending p with
  | O => p
  | S n =>
      let p := with_pending n p in
      if String.eqb permission "granted" then
        match enableOrientationMode pf p with
        | (p', None) => p'
        | (p', Some message) => catch_permission_error message p'
        end
      else
        alert "Motion permission denied. Please enable it in your browser settings." p
  end.

Definition permission_rejected (message : string) (p : Page) : Page :=
  match pending p with
  | O => p
  | S n => catch_permission_error message (with_pending n p)
  end.

Definition page_step (pf : Platform) (p : Page) (ev : PageEvent) : Page :=
  match ev with
  | WindowMouseMove rect_of x y =>
      with_instances
        (dispatch (fun i => handleMouseMove (rect_of i) x y) 0
                  (trackerInstances p)) p
  | WindowTouch rect_of touches =>
      with_instances
        (dispatch (fun i => handleTouch (rect_of i) touches) 0
                  (trackerInstances p)) p
  | WindowOrientation e =>
      with_instances (map (handleOrientation e) (trackerInstances p)) p
  | ButtonClick => click pf p
  | PermissionResolved permission => permission_resolved pf permission p
  | PermissionRejected message => permission_rejected message p
  end.

Definition page_run (pf : Platform) (p : Page) (evs : list PageEvent) : Page :=
  fold_left (page_step pf) evs p.

(* ------------------------------------------------------------------ *)
(** ** Further notions used in the statements *)

(** Does [c] occur in [s]? *)
Fixpoint contains (c : ascii) (s : string) : bool :=
  match s with
  | EmptyString => false
  | String a rest => Ascii.eqb a c || contains c rest
  end.

Definition is_digit (c : ascii) : bool :=
  (48 <=? nat_of_ascii c)%nat && (nat_of_ascii c <=? 57)%nat.

Fixpoint all_digits (s : string) : bool :=
  match s with
  | EmptyString => true
  | String c r => is_digit c && all_digits r
  end.

(** The pointer normalization of [setFromClient] (lines 53-60), step by
    step: the half sizes of the rectangle, the offsets of the pointer from
    its center, the vertical one pointing up, and the two samples, the
    offsets over the half sizes clamped to [-1, 1]. *)
Definition half_width (rect : DOMRect) : number := (width rect / num_of_Z 2)%js.

Definition half_height (rect : DOMRect) : number := (height rect / num_of_Z 2)%js.

Definition offset_x (rect : DOMRect) (clientX : number) : number :=
  (clientX - (left rect + half_width rect))%js.

Definition offset_y (rect : DOMRect) (clientY : number) : number :=
  ((top rect + half_height rect) - clientY)%js.

Definition pointer_sample_x (rect : DOMRect) (clientX : number) : number :=
  clamp (offset_x rect clientX / half_width rect)%js
        (num_of_Z (-1)) (num_of_Z 1).

Definition pointer_sample_y (rect : DOMRect) (clientY : number) : number :=
  clamp (offset_y rect clientY / half_height rect)%js
        (num_of_Z (-1)) (num_of_Z 1).

(** A rectangle the pointer can be normalized against: its four numbers are
    finite and both half sizes, as the program computes them, are finite and
    not zero. *)
Definition usable_rect (r : DOMRect) : Prop :=
  exists l tp w h hw hh : Q,
    r = {| left := Fin l; top := Fin tp; width := Fin w; height := Fin h |}
    /\ half_width r = Fin hw /\ ~ hw == 0
    /\ half_height r = Fin hh /\ ~ hh == 0.

(** The center of the rectangle, as the program computes it, is finite. *)
Definition finite_center (r : DOMRect) : Prop :=
  is_finite (left r + half_width r)%js = true
  /\ is_finite (top r + half_height r)%js = true.

(** The sizes of the rectangle are not negative. *)
Definition upright_rect (r : DOMRect) : Prop :=
  num_le (Fin 0) (width r) /\ num_le (Fin 0) (height r).

(** Pixel data: a rectangle and a pointer position given by integers of
    magnitude at most 2^50. *)
Definition pixel_rect (l tp w h : Z) : DOMRect :=
  {| left := num_of_Z l; top := num_of_Z tp;
     width := num_of_Z w; height := num_of_Z h |}.

Definition pixel_range (k : Z) : Prop := (Z.abs k <= 2 ^ 50)%Z.

(** The instance without its debug overlay. *)
Definition erase_debug (t : Tracker) : Tracker :=
  {| basePath := basePath t;
     img_src := img_src t;
     debugEl := None;
     useOrientation := useOrientation t;
     baseOrientation := baseOrientation t;
     hasCalibrated := hasCalibrated t |}.

(** The image shown is one of the grid's assets. *)
Definition shows_grid_asset (t : Tracker) : Prop :=
  exists gx gy : Z,
    In gx grid /\ In gy grid /\ img_src t = basePath t ++ encode gx gy SIZE.

(** The debug overlay, when there is one, names the image shown. *)
Definition overlay_names_image (t : Tracker) : Prop :=
  exists filename : string,
    img_src t = basePath t ++ filename
    /\ match debugEl t with
       | None => True
       | Some html => exists text, html = text ++ "<br/>Image: " ++ filename
       end.

(** Events with finite data: usable rectangles, finite pointer positions,
    finite or absent angles. *)
Definition finite_touch (p : TouchPoint) : Prop :=
  is_finite (touch_clientX p) = true /\ is_finite (touch_clientY p) = true.

Definition finite_orientation (e : OrientationEvent) : Prop :=
  exists b g : option Q, e = reading b g.

Definition finite_event (ev : Event) : Prop :=
  match ev with
  | MouseMove rect x y =>
      usable_rect rect /\ is_finite x = true /\ is_finite y = true
  | Touch rect touches =>
      usable_rect rect
      /\ match touches with
         | Some (p :: _) => finite_touch p
         | _ => True
         end
  | DeviceOrientation e => finite_orientation e
  | EnableOrientation | DisableOrientation => True
  end.

(** The baseline holds two finite angles. *)
Definition finite_baseline (t : Tracker) : Prop :=
  exists b0 g0 : Q, baseOrientation t = {| beta := Fin b0; gamma := Fin g0 |}.

(** Every instance of the page has orientation mode off. *)
Definition all_off (p : Page) : Prop :=
  Forall (fun t => useOrientation t = false) (trackerInstances p).

(** The page's mode flag is off only when every instance's is. *)
Definition mode_off_inv (p : Page) : Prop :=
  isOrientationMode p = false -> all_off p.

(** The integers that [toFixed] prints in fixed notation. *)
Definition fixed_range (k : Z) : Prop := (Z.abs k < 10 ^ 21)%Z.

(** A concrete instance, used to evaluate the model: a 200 by 100
    container at the origin, default base path, debug overlay on. *)
Definition demo_container : Container :=
  {| dataset_basePath := None; dataset_debug := Some "true" |}.

Definition demo_rect : DOMRect :=
  {| left := num_of_Z 0; top := num_of_Z 0;
     width := num_of_Z 200; height := num_of_Z 100 |}.

Definition demo_tracker : Tracker :=
  initializeFaceTracker demo_container demo_rect.

Open Scope Q_scope.
Open Scope string_scope.

(* ------------------------------------------------------------------ *)
(** ** Evaluating the model *)

(** The arithmetic rounds as binary64 does: 0.1 + 0.2 is 0.30000000000000004,
    10^16 + 1 is 10^16, the largest power of two doubled overflows and the
    smallest number halved underflows to 0. *)
Example nearest_tenth : nearest (1 # 10) = 3602879701896397 # 36028797018963968.
Proof. vm_compute. reflexivity. Qed.

Example tenth_plus_fifth :
  (Fin (nearest (1 # 10)) + Fin (nearest (2 # 10)))%js
  = Fin (1351079888211149 # 4503599627370496).
Proof. vm_compute. reflexivity. Qed.

Example large_plus_one :
  (num_of_Z (10 ^ 16) + num_of_Z 1)%js = num_of_Z (10 ^ 16).
Proof. vm_compute. reflexivity. Qed.

Example overflow : (Fin (2 ^ 1023) * num_of_Z 2)%js = PosInf.
Proof. vm_compute. reflexivity. Qed.

Example underflow : (Fin (2 ^ (-1074)) / num_of_Z 2)%js = Fin 0.
Proof. vm_compute. reflexivity. Qed.

Example quantize_half : quantizeToGrid (Fin (1 # 2)) = num_of_Z 9.
Proof. vm_compute. reflexivity. Qed.

(** Next to a border of two cells the rounding decides: the literals 0.3,
    0.7, -0.1 and -0.9 all get the value of the upper cell. *)
Example quantize_at_literals :
  map (fun q => quantizeToGrid (Fin (nearest q)))
      [3 # 10; 7 # 10; - (1 # 10); - (9 # 10); 9 # 10; 1 # 10]
  = map num_of_Z [6; 12; 0; -12; 15; 3]%Z.
Proof. vm_compute. reflexivity. Qed.

Example sanitize_m3 : sanitize (num_of_Z (-3)) = "m3p0".
Proof. reflexivity. Qed.

Example toFixed1_small : toFixed1 (Fin (- (1 # 100))) = "-0.0".
Proof. reflexivity. Qed.

Example toFixed1_tie : toFixed1 (Fin (25 # 100)) = "0.3".
Proof. reflexivity. Qed.

Example demo_tracker_initial :
  demo_tracker
  = {| basePath := "/faces/";
       img_src := "/faces/gaze_px0p0_py0p0_256.webp";
       debugEl := Some "Mouse: (100, 50)<br/>Image: gaze_px0p0_py0p0_256.webp";
       useOrientation := false;
       baseOrientation := {| beta := Fin 0; gamma := Fin 0 |};
       hasCalibrated := false |}.
Proof. vm_compute. reflexivity. Qed.

Example degenerate_rect_gives_NaN :
  img_src (handleMouseMove
             {| left := num_of_Z 0; top := num_of_Z 0;
                width := num_of_Z 0; height := num_of_Z 100 |}
             (num_of_Z 0) (num_of_Z 0) demo_tracker)
  = "/faces/gaze_pxNaN_py15p0_256.webp".
Proof. vm_compute. reflexivity. Qed.

(** A rectangle at 0.1 of width 200 and a pointer at 130.1: the sample is
    the literal 0.3, and px is 6. *)
Example pointer_at_130_1 :
  img_src (handleMouseMove
             {| left := Fin (nearest (1 # 10)); top := num_of_Z 0;
                width := num_of_Z 200; height := num_of_Z 100 |}
             (Fin (nearest (1301 # 10))) (num_of_Z 50) demo_tracker)
  = "/faces/gaze_px6p0_py0p0_256.webp".
Proof. vm_compute. reflexivity. Qed.

(** A rectangle at 10^16 of width 2: its center is computed as 10^16, and a
    pointer on the left edge looks straight ahead. *)
Example pointer_on_far_left_edge :
  img_src (handleMouseMove
             {| left := num_of_Z (10 ^ 16); top := num_of_Z 0;
                width := num_of_Z 2; height := num_of_Z 100 |}
             (num_of_Z (10 ^ 16)) (num_of_Z 50) demo_tracker)
  = "/faces/gaze_px0p0_py0p0_256.webp".
Proof. vm_compute. reflexivity. Qed.

(** A width so small that its half underflows to 0 leaves a new instance
    dividing 0 by 0. *)
Example tiny_width_gives_NaN :
  img_src (initializeFaceTracker demo_container
             {| left := num_of_Z 0; top := num_of_Z 0;
                width := Fin (2 ^ (-1074)); height := num_of_Z 100 |})
  = "/faces/gaze_pxNaN_py0p0_256.webp".
Proof. vm_compute. reflexivity. Qed.

(** Tilt: with baseline gamma 15.1 the reading 0.1 differs by exactly -15
    and shows px 9; with baseline beta 0.1 the reading 3.1 differs by
    exactly 3 and shows py 0, the reading 27.1 by exactly 27 and shows
    py -12. *)
Example tilt_at_literals :
  let t := handleOrientation
             (reading (Some (nearest (1 # 10))) (Some (nearest (151 # 10))))
             (enableOrientation demo_tracker) in
  img_src (handleOrientation
             (reading (Some (nearest (31 # 10))) (Some (nearest (1 # 10)))) t)
  = "/faces/gaze_px9p0_py0p0_256.webp"
  /\ img_src (handleOrientation
                (reading (Some (nearest (271 # 10))) (Some (nearest (151 # 10)))) t)
     = "/faces/gaze_px0p0_pym12p0_256.webp".
Proof. vm_compute. split; reflexivity. Qed.

(* ------------------------------------------------------------------ *)
(** ** Clamping, rounding to an integer and the file names of the grid *)

Open Scope Q_scope.

Lemma Qle_bool_inject (a b : Z) : Qle_bool (inject_Z a) (inject_Z b) = (a <=? b)%Z.
Proof.
  unfold Qle_bool, inject_Z. simpl. now rewrite !Z.mul_1_r.
Qed.

Lemma clamp_num_of_Z (s lo hi : Z) :
  (lo <= hi)%Z ->
  clamp (num_of_Z s) (num_of_Z lo) (num_of_Z hi) = num_of_Z (clampZ s lo hi).
Proof.
  intros Hlh. unfold clamp, clampZ, Math_min, Math_max, num_of_Z, leb.
  rewrite Qle_bool_inject.
  destruct (Z.leb_spec hi s) as [H | H].
  - rewrite Qle_bool_inject.
    destruct (Z.leb_spec lo hi); [ | lia].
    f_equal. f_equal. lia.
  - rewrite Qle_bool_inject.
    destruct (Z.leb_spec lo s); f_equal; f_equal; lia.
Qed.

Lemma clampZ_grid (n : Z) : In (clampZ (n * 3) (-15) 15) grid.
Proof.
  assert (E : let c := clampZ (n * 3) (-15) 15 in
              (c = -15 \/ c = -12 \/ c = -9 \/ c = -6 \/ c = -3 \/ c = 0 \/
               c = 3 \/ c = 6 \/ c = 9 \/ c = 12 \/ c = 15)%Z)
    by (unfold clampZ; lia).
  cbv zeta in E. unfold grid.
  repeat (destruct E as [E | E]; [ rewrite E; simpl; tauto | ]).
  rewrite E; simpl; tauto.
Qed.

Lemma round_half_up_comp (x y : Q) : x == y -> round_half_up x = round_half_up y.
Proof. intros H. unfold round_half_up. now rewrite H. Qed.

Lemma round_half_up_Z (k : Z) : round_half_up (inject_Z k) = k.
Proof.
  unfold round_half_up.
  assert (H1 := Qfloor_le (inject_Z k + (1 # 2))).
  assert (H2 := Qlt_floor (inject_Z k + (1 # 2))).
  assert (H3 : inject_Z (Qfloor (inject_Z k + (1#2))) < inject_Z (k + 1)).
  { rewrite inject_Z_plus. change (inject_Z 1) with 1. lra. }
  assert (H4 : inject_Z (k + -1) < inject_Z (Qfloor (inject_Z k + (1#2)))).
  { rewrite inject_Z_plus. rewrite inject_Z_plus in H2.
    change (inject_Z 1) with 1 in H2. change (inject_Z (-1)) with (-1 # 1). lra. }
  rewrite <- Zlt_Qlt in H3, H4. lia.
Qed.

Lemma round_half_up_tie (k : Z) : round_half_up (inject_Z k + (1 # 2)) = (k + 1)%Z.
Proof.
  unfold round_half_up.
  transitivity (Qfloor (inject_Z (k + 1))); [ | apply Qfloor_Z ].
  apply Qfloor_comp. rewrite inject_Z_plus. change (inject_Z 1) with 1. lra.
Qed.


Lemma clampQ_cases (v lo hi : Q) :
  lo <= hi ->
  (v <= lo /\ clampQ v lo hi = lo) \/
  (hi <= v /\ clampQ v lo hi = hi) \/
  (lo <= v <= hi /\ clampQ v lo hi = v).
Proof.
  intros Hlh. unfold clampQ.
  destruct (Qle_bool v lo) eqn:E1.
  - left. split; [ now apply Qle_bool_iff | reflexivity ].
  - destruct (Qle_bool hi v) eqn:E2.
    + right; left. split; [ now apply Qle_bool_iff | reflexivity ].
    + right; right. split; [ | reflexivity ].
      assert (~ v <= lo) by (rewrite <- Qle_bool_iff; congruence).
      assert (~ hi <= v) by (rewrite <- Qle_bool_iff; congruence).
      split; lra.
Qed.

Lemma clampQ_comp (v w lo hi : Q) : v == w -> clampQ v lo hi == clampQ w lo hi.
Proof.
  intros H. unfold clampQ.
  assert (E1 : Qle_bool v lo = Qle_bool w lo).
  { apply eq_true_iff_eq. rewrite !Qle_bool_iff, H. tauto. }
  assert (E2 : Qle_bool hi v = Qle_bool hi w).
  { apply eq_true_iff_eq. rewrite !Qle_bool_iff, H. tauto. }
  rewrite E1, E2.
  destruct (Qle_bool w lo); [ reflexivity | ].
  destruct (Qle_bool hi w); [ reflexivity | assumption ].
Qed.

Lemma clamp_Fin (v lo hi : Q) :
  lo <= hi ->
  exists q, clamp (Fin v) (Fin lo) (Fin hi) = Fin q /\ q == clampQ v lo hi.
Proof.
  intros Hlh. unfold clamp, Math_min, Math_max, leb, clampQ.
  destruct (Qle_bool hi v) eqn:E1.
  - assert (H1 : hi <= v) by now apply Qle_bool_iff.
    assert (E2 : Qle_bool lo hi = true) by now apply Qle_bool_iff.
    rewrite E2. exists hi. split; [ reflexivity | ].
    destruct (Qle_bool v lo) eqn:E3; [ | reflexivity ].
    apply Qle_bool_iff in E3. lra.
  - assert (H1 : ~ hi <= v) by (rewrite <- Qle_bool_iff; congruence).
    destruct (Qle_bool lo v) eqn:E2.
    + exists v. split; [ reflexivity | ].
      apply Qle_bool_iff in E2.
      destruct (Qle_bool v lo) eqn:E3; [ | reflexivity ].
      apply Qle_bool_iff in E3. lra.
    + exists lo. split; [ reflexivity | ].
      assert (H2 : ~ lo <= v) by (rewrite <- Qle_bool_iff; congruence).
      assert (E3 : Qle_bool v lo = true) by (apply Qle_bool_iff; lra).
      now rewrite E3.
Qed.

Ltac each_grid_value H :=
  unfold grid in H; simpl in H;
  repeat (destruct H as [H | H]; [ subst | ]); [ .. | contradiction ].

Lemma toFixed1_grid (k : Z) : In k grid -> toFixed1 (num_of_Z k) = fixed1 k.
Proof. intros H. each_grid_value H; reflexivity. Qed.

Lemma sanitize_grid (k : Z) : In k grid -> sanitize (num_of_Z k) = encode_coord k.
Proof. intros H. each_grid_value H; reflexivity. Qed.

Lemma gridToFilename_grid (px py : Z) :
  In px grid -> In py grid ->
  gridToFilename (num_of_Z px) (num_of_Z py) = encode px py SIZE.
Proof.
  intros Hx Hy. unfold gridToFilename, encode.
  now rewrite (sanitize_grid px Hx), (sanitize_grid py Hy).
Qed.

Lemma decode_grid_pairs :
  forallb (fun p =>
             match decode (gridToFilename (num_of_Z (fst p)) (num_of_Z (snd p))) with
             | Some q => (fst p =? fst q)%Z && (snd p =? snd q)%Z
             | None => false
             end) grid_pairs = true.
Proof. vm_compute. reflexivity. Qed.

Lemma decode_gridToFilename (px py : Z) :
  In px grid -> In py grid ->
  decode (gridToFilename (num_of_Z px) (num_of_Z py)) = Some (px, py).
Proof.
  intros Hx Hy.
  assert (Hp : In (px, py) grid_pairs) by (apply in_prod; assumption).
  assert (H := proj1 (forallb_forall _ _) decode_grid_pairs _ Hp).
  simpl in H.
  destruct (decode _) as [[qx qy] | ]; [ | discriminate ].
  apply andb_prop in H. destruct H as [H1 H2]. simpl in *.
  apply Z.eqb_eq in H1, H2. now subst.
Qed.

Lemma nullable_or_zero_reading (o : option Q) :
  exists q, nullable_or_zero (option_map Fin o) = Fin q /\ q == value_or_zero o.
Proof.
  destruct o as [x | ]; simpl.
  - destruct (Qeq_bool x 0) eqn:E.
    + exists 0. split; [ reflexivity | ]. apply Qeq_bool_iff in E. now rewrite E.
    + exists x. split; reflexivity.
  - exists 0. split; reflexivity.
Qed.

(** Inside a session a calibrated instance keeps its baseline. *)
Lemma step_keeps_baseline (t : Tracker) (ev : Event) :
  hasCalibrated t = true ->
  ev <> EnableOrientation ->
  hasCalibrated (step t ev) = true
  /\ baseOrientation (step t ev) = baseOrientation t.
Proof.
  intros Hc Hev. destruct ev as [rect x y | rect touches | e | | ]; simpl.
  - now split.
  - unfold handleTouch. destruct touches as [[ | p ps] | ]; now split.
  - unfold handleOrientation. destruct (useOrientation t); simpl.
    + rewrite Hc. now split.
    + now split.
  - contradiction.
  - now split.
Qed.

Lemma run_keeps_baseline (evs : list Event) : forall t : Tracker,
  hasCalibrated t = true ->
  same_session evs ->
  hasCalibrated (run t evs) = true
  /\ baseOrientation (run t evs) = baseOrientation t.
Proof.
  induction evs as [ | ev evs IH]; intros t Hc Hs.
  - now split.
  - inversion Hs as [ | ? ? Hev Hrest]; subst.
    destruct (step_keeps_baseline t ev Hc Hev) as [Hc1 Hb1].
    destruct (IH (step t ev) Hc1 Hrest) as [Hc2 Hb2].
    simpl. split; [ exact Hc2 | now rewrite Hb2 ].
Qed.

Lemma step_basePath (t : Tracker) (ev : Event) : basePath (step t ev) = basePath t.
Proof.
  destruct ev as [rect x y | rect touches | e | | ]; simpl; try reflexivity.
  - unfold handleTouch. destruct touches as [[ | p ps] | ]; reflexivity.
  - unfold handleOrientation. destruct (useOrientation t); reflexivity.
Qed.

Lemma run_basePath (evs : list Event) : forall t : Tracker,
  basePath (run t evs) = basePath t.
Proof.
  induction evs as [ | ev evs IH]; intros t; [ reflexivity | ].
  change (run t (ev :: evs)) with (run (step t ev) evs).
  now rewrite IH, step_basePath.
Qed.

(* ------------------------------------------------------------------ *)
(** ** Rounding to binary64 *)

Open Scope Q_scope.

Lemma two_nonzero : ~ 2 == 0.
Proof. discriminate. Qed.

Lemma pow2_pos (e : Z) : 0 < 2 ^ e.
Proof. apply Qpower_0_lt. reflexivity. Qed.

Lemma pow2_plus (a b : Z) : 2 ^ (a + b) == 2 ^ a * 2 ^ b.
Proof. apply Qpower_plus, two_nonzero. Qed.

Lemma pow2_succ (a : Z) : 2 ^ (a + 1) == 2 * 2 ^ a.
Proof. rewrite pow2_plus. change (2 ^ 1) with 2. ring. Qed.

Lemma pow2_le (a b : Z) : (a <= b)%Z -> 2 ^ a <= 2 ^ b.
Proof. intros H. apply Qpower_le_compat_l; [ exact H | discriminate ]. Qed.

Lemma pow2_lt (a b : Z) : (a < b)%Z -> 2 ^ a < 2 ^ b.
Proof. intros H. apply Qpower_lt_compat_l; [ exact H | reflexivity ]. Qed.

Lemma pow2_lt_inv (a b : Z) : 2 ^ a < 2 ^ b -> (a < b)%Z.
Proof. intros H. apply (Qpower_lt_compat_l_inv 2); [ exact H | reflexivity ]. Qed.

Lemma pow2_Z (n : Z) : (0 <= n)%Z -> inject_Z (2 ^ n) == 2 ^ n.
Proof. intros H. now rewrite Zpower_Qpower. Qed.

Lemma Qlog2_spec (x : Q) :
  0 < x -> 2 ^ Qlog2 x <= x /\ x < 2 ^ (Qlog2 x + 1).
Proof.
  intros Hx. unfold Qlog2.
  destruct x as [n d]. cbn [Qnum Qden].
  assert (Hn : (0 < n)%Z) by (unfold Qlt in Hx; simpl in Hx; lia).
  set (a := Z.log2 n). set (b := Z.log2 (Z.pos d)).
  assert (Ha := Z.log2_spec n Hn). fold a in Ha.
  assert (Hb := Z.log2_spec (Z.pos d) (Pos2Z.is_pos d)). fold b in Hb.
  assert (A0 : (0 <= a)%Z) by apply Z.log2_nonneg.
  assert (B0 : (0 <= b)%Z) by apply Z.log2_nonneg.
  assert (X : n # d == inject_Z n / inject_Z (Z.pos d)) by apply Qmake_Qdiv.
  assert (Dp : 0 < inject_Z (Z.pos d)) by (rewrite <- (Zlt_Qlt 0); lia).
  assert (A1 : 2 ^ a <= inject_Z n).
  { rewrite <- pow2_Z by lia. rewrite <- Zle_Qle. lia. }
  assert (A2 : inject_Z n < 2 ^ (a + 1)).
  { rewrite <- pow2_Z by lia. rewrite <- Zlt_Qlt. replace (a + 1)%Z with (Z.succ a) by lia. lia. }
  assert (B1 : 2 ^ b <= inject_Z (Z.pos d)).
  { rewrite <- pow2_Z by lia. rewrite <- Zle_Qle. lia. }
  assert (B2 : inject_Z (Z.pos d) < 2 ^ (b + 1)).
  { rewrite <- pow2_Z by lia. rewrite <- Zlt_Qlt. replace (b + 1)%Z with (Z.succ b) by lia. lia. }
  assert (P := pow2_pos (a - b)).
  assert (Pb := pow2_pos b).
  assert (E1 : 2 ^ a == 2 ^ (a - b) * 2 ^ b).
  { rewrite <- pow2_plus. now replace (a - b + b)%Z with a by lia. }
  assert (U : n # d < 2 ^ (a - b + 1)).
  { rewrite X. apply Qlt_shift_div_r; [ exact Dp | ].
    rewrite pow2_succ. rewrite pow2_succ, E1 in A2.
    apply (Qlt_le_trans _ _ _ A2).
    setoid_replace (2 * (2 ^ (a - b) * 2 ^ b)) with ((2 * 2 ^ (a - b)) * 2 ^ b) by ring.
    apply Qmult_le_l; [ lra | exact B1 ]. }
  assert (L : 2 ^ (a - b - 1 + 1) <= 2 * (n # d)).
  { replace (a - b - 1 + 1)%Z with (a - b)%Z by lia.
    rewrite X.
    setoid_replace (2 * (inject_Z n / inject_Z (Z.pos d)))
      with ((2 * inject_Z n) / inject_Z (Z.pos d)) by (field; lra).
    apply Qle_shift_div_l; [ exact Dp | ].
    rewrite pow2_succ in B2.
    apply Qle_trans with (2 ^ (a - b) * (2 * 2 ^ b)).
    - apply Qmult_le_l; [ exact P | lra ].
    - setoid_replace (2 ^ (a - b) * (2 * 2 ^ b)) with (2 * (2 ^ (a - b) * 2 ^ b)) by ring.
      rewrite <- E1. lra. }
  destruct (Qle_bool (2 ^ (a - b)) (n # d)) eqn:E.
  - apply Qle_bool_iff in E. split; assumption.
  - assert (N : ~ 2 ^ (a - b) <= n # d) by (rewrite <- Qle_bool_iff; congruence).
    replace (a - b - 1 + 1)%Z with (a - b)%Z in * by lia.
    split; [ | lra ].
    assert (S := pow2_succ (a - b - 1)).
    replace (a - b - 1 + 1)%Z with (a - b)%Z in S by lia.
    lra.
Qed.

Lemma log2_unique (x : Q) (e e' : Z) :
  2 ^ e <= x < 2 ^ (e + 1) -> 2 ^ e' <= x < 2 ^ (e' + 1) -> e = e'.
Proof.
  intros [L U] [L' U'].
  assert (A : (e < e' + 1)%Z) by (apply pow2_lt_inv; lra).
  assert (B : (e' < e + 1)%Z) by (apply pow2_lt_inv; lra).
  lia.
Qed.

Lemma Qlog2_comp (x y : Q) : 0 < x -> x == y -> Qlog2 x = Qlog2 y.
Proof.
  intros Hx E.
  assert (Hy : 0 < y) by now rewrite <- E.
  apply (log2_unique x); [ now apply Qlog2_spec | ].
  rewrite E. now apply Qlog2_spec.
Qed.

Lemma Qlog2_mono (x y : Q) : 0 < x -> x <= y -> (Qlog2 x <= Qlog2 y)%Z.
Proof.
  intros Hx H.
  assert (Hy : 0 < y) by lra.
  destruct (Qlog2_spec x Hx) as [Lx Ux].
  destruct (Qlog2_spec y Hy) as [Ly Uy].
  assert (A : (Qlog2 x < Qlog2 y + 1)%Z) by (apply pow2_lt_inv; lra).
  lia.
Qed.

(** nearest_even *)

Lemma Qltb_iff (a b : Q) : Qltb a b = true <-> a < b.
Proof.
  unfold Qltb. rewrite negb_true_iff.
  split.
  - intros H. apply Qnot_le_lt. rewrite <- Qle_bool_iff. congruence.
  - intros H. apply not_true_is_false. rewrite Qle_bool_iff. lra.
Qed.

Lemma Qltb_comp (a b a' b' : Q) : a == a' -> b == b' -> Qltb a b = Qltb a' b'.
Proof.
  intros Ha Hb. apply eq_true_iff_eq. rewrite !Qltb_iff, Ha, Hb. tauto.
Qed.

Lemma Qle_bool_comp (a b a' b' : Q) :
  a == a' -> b == b' -> Qle_bool a b = Qle_bool a' b'.
Proof.
  intros Ha Hb. apply eq_true_iff_eq. rewrite !Qle_bool_iff, Ha, Hb. tauto.
Qed.

Lemma Qeq_bool_comp (a b a' b' : Q) :
  a == a' -> b == b' -> Qeq_bool a b = Qeq_bool a' b'.
Proof.
  intros Ha Hb. apply eq_true_iff_eq. rewrite !Qeq_bool_iff, Ha, Hb. tauto.
Qed.

Lemma nearest_even_comp (x y : Q) : x == y -> nearest_even x = nearest_even y.
Proof.
  intros E. unfold nearest_even.
  rewrite (Qfloor_comp x y E).
  rewrite (Qltb_comp (x - inject_Z (Qfloor y)) (1 # 2) (y - inject_Z (Qfloor y)) (1 # 2))
    by (rewrite ?E; reflexivity).
  rewrite (Qltb_comp (1 # 2) (x - inject_Z (Qfloor y)) (1 # 2) (y - inject_Z (Qfloor y)))
    by (rewrite ?E; reflexivity).
  reflexivity.
Qed.

Lemma nearest_even_cases (x : Q) :
  let f := Qfloor x in
  (x - inject_Z f < 1 # 2 /\ nearest_even x = f)
  \/ (1 # 2 < x - inject_Z f /\ nearest_even x = (f + 1)%Z)
  \/ (x - inject_Z f == 1 # 2
      /\ nearest_even x = if Z.even f then f else (f + 1)%Z).
Proof.
  intros f. unfold nearest_even. fold f.
  destruct (Qltb (x - inject_Z f) (1 # 2)) eqn:E1.
  - left. split; [ now apply Qltb_iff | reflexivity ].
  - destruct (Qltb (1 # 2) (x - inject_Z f)) eqn:E2.
    + right; left. split; [ now apply Qltb_iff | reflexivity ].
    + right; right. split; [ | reflexivity ].
      assert (~ x - inject_Z f < 1 # 2) by (rewrite <- Qltb_iff; congruence).
      assert (~ 1 # 2 < x - inject_Z f) by (rewrite <- Qltb_iff; congruence).
      lra.
Qed.

Lemma floor_bounds (x : Q) :
  inject_Z (Qfloor x) <= x /\ x < inject_Z (Qfloor x) + 1.
Proof.
  split; [ apply Qfloor_le | ].
  assert (H := Qlt_floor x). rewrite inject_Z_plus in H. exact H.
Qed.

Lemma nearest_even_mono (x y : Q) : x <= y -> (nearest_even x <= nearest_even y)%Z.
Proof.
  intros H.
  assert (F := Qfloor_resp_le x y H).
  destruct (floor_bounds x) as [Lx Ux]. destruct (floor_bounds y) as [Ly Uy].
  destruct (nearest_even_cases x) as [[Dx Ex] | [[Dx Ex] | [Dx Ex]]];
  destruct (nearest_even_cases y) as [[Dy Ey] | [[Dy Ey] | [Dy Ey]]];
    rewrite Ex, Ey; cbv zeta in *;
    destruct (Z.eq_dec (Qfloor x) (Qfloor y)) as [Q | Q];
    try rewrite Q in *; try (destruct (Z.even (Qfloor y))); try (destruct (Z.even (Qfloor x)));
    try lia; exfalso; lra.
Qed.

Lemma nearest_even_Z (n : Z) : nearest_even (inject_Z n) = n.
Proof.
  unfold nearest_even. rewrite Qfloor_Z.
  assert (E : Qltb (inject_Z n - inject_Z n) (1 # 2) = true).
  { apply Qltb_iff. lra. }
  now rewrite E.
Qed.

Lemma nearest_even_near (x : Q) :
  x - (1 # 2) <= inject_Z (nearest_even x) <= x + (1 # 2).
Proof.
  destruct (floor_bounds x) as [L U].
  destruct (nearest_even_cases x) as [[D E] | [[D E] | [D E]]]; rewrite E; cbv zeta in *.
  - split; lra.
  - rewrite inject_Z_plus. change (inject_Z 1) with 1. split; lra.
  - destruct (Z.even (Qfloor x)).
    + split; lra.
    + rewrite inject_Z_plus. change (inject_Z 1) with 1. split; lra.
Qed.

(** round_pos *)

Lemma round_pos_eq (a : Q) :
  round_pos a = inject_Z (nearest_even (a / 2 ^ expo a)) * 2 ^ expo a.
Proof. reflexivity. Qed.

(** Rounding at a fixed exponent keeps the order with the multiples of
    [2^p]. *)
Lemma scaled_le_upper (a : Q) (p k : Z) :
  a <= inject_Z k * 2 ^ p ->
  inject_Z (nearest_even (a / 2 ^ p)) * 2 ^ p <= inject_Z k * 2 ^ p.
Proof.
  intros H. assert (P := pow2_pos p).
  apply Qmult_le_compat_r; [ | lra ].
  rewrite <- Zle_Qle. rewrite <- (nearest_even_Z k).
  apply nearest_even_mono.
  apply Qle_shift_div_r; assumption.
Qed.

Lemma scaled_le_lower (a : Q) (p k : Z) :
  inject_Z k * 2 ^ p <= a ->
  inject_Z k * 2 ^ p <= inject_Z (nearest_even (a / 2 ^ p)) * 2 ^ p.
Proof.
  intros H. assert (P := pow2_pos p).
  apply Qmult_le_compat_r; [ | lra ].
  rewrite <- Zle_Qle. rewrite <- (nearest_even_Z k) at 1.
  apply nearest_even_mono.
  apply Qle_shift_div_l; assumption.
Qed.

Lemma pow2_as_multiple (e p : Z) :
  (p <= e)%Z -> 2 ^ e == inject_Z (2 ^ (e - p)) * 2 ^ p.
Proof.
  intros H. rewrite pow2_Z by lia. rewrite <- pow2_plus.
  now replace (e - p + p)%Z with e by lia.
Qed.

Lemma round_pos_upper (a : Q) :
  0 < a -> round_pos a <= 2 ^ (Z.max (Qlog2 a) (-1022) + 1).
Proof.
  intros Ha. rewrite round_pos_eq. unfold expo.
  set (e := Z.max (Qlog2 a) (-1022)).
  rewrite (pow2_as_multiple (e + 1) (e - 52)) by lia.
  apply scaled_le_upper.
  rewrite <- pow2_as_multiple by lia.
  destruct (Qlog2_spec a Ha) as [_ U].
  apply Qlt_le_weak, (Qlt_le_trans _ _ _ U), pow2_le. unfold e. lia.
Qed.

Lemma round_pos_lower (a : Q) :
  0 < a -> (-1022 <= Qlog2 a)%Z -> 2 ^ Qlog2 a <= round_pos a.
Proof.
  intros Ha Hn. rewrite round_pos_eq. unfold expo.
  rewrite Z.max_l by lia.
  rewrite (pow2_as_multiple (Qlog2 a) (Qlog2 a - 52)) at 1 by lia.
  apply scaled_le_lower.
  rewrite <- pow2_as_multiple by lia.
  now destruct (Qlog2_spec a Ha).
Qed.

Lemma round_pos_nonneg (a : Q) : 0 < a -> 0 <= round_pos a.
Proof.
  intros Ha. rewrite round_pos_eq.
  assert (P := pow2_pos (expo a)).
  apply Qmult_le_0_compat; [ | lra ].
  change 0 with (inject_Z 0). rewrite <- Zle_Qle.
  rewrite <- (nearest_even_Z 0). apply nearest_even_mono.
  apply Qle_shift_div_l; [ exact P | ]. change (inject_Z 0) with 0. lra.
Qed.

Lemma round_pos_comp (a b : Q) : 0 < a -> a == b -> round_pos a = round_pos b.
Proof.
  intros Ha E. rewrite !round_pos_eq. unfold expo.
  rewrite (Qlog2_comp a b Ha E).
  f_equal. f_equal. apply nearest_even_comp. now rewrite E.
Qed.

Lemma round_pos_mono (a b : Q) : 0 < a -> a <= b -> round_pos a <= round_pos b.
Proof.
  intros Ha H. assert (Hb : 0 < b) by lra.
  assert (M := Qlog2_mono a b Ha H).
  destruct (Z.eq_dec (Z.max (Qlog2 a) (-1022)) (Z.max (Qlog2 b) (-1022))) as [E | E].
  - rewrite !round_pos_eq. unfold expo. rewrite E.
    set (p := (Z.max (Qlog2 b) (-1022) - 52)%Z). assert (P := pow2_pos p).
    apply Qmult_le_compat_r; [ | lra ].
    rewrite <- Zle_Qle. apply nearest_even_mono.
    apply Qle_shift_div_l; [ exact P | ].
    setoid_replace (a / 2 ^ p * 2 ^ p) with a by (field; lra). exact H.
  - assert (Hn : (-1022 <= Qlog2 b)%Z) by lia.
    apply Qle_trans with (2 ^ (Z.max (Qlog2 a) (-1022) + 1));
      [ now apply round_pos_upper | ].
    apply Qle_trans with (2 ^ Qlog2 b); [ | now apply round_pos_lower ].
    apply pow2_le. lia.
Qed.

(** round64 *)

Lemma round64_comp (x y : Q) : x == y -> round64 x = round64 y.
Proof.
  intros E. unfold round64.
  rewrite (Qeq_bool_comp x 0 y 0 E (Qeq_refl 0)).
  destruct (Qeq_bool y 0) eqn:Z0; [ reflexivity | ].
  rewrite (Qltb_comp x 0 y 0 E (Qeq_refl 0)).
  assert (Ny : ~ y == 0) by (rewrite <- Qeq_bool_iff; congruence).
  destruct (Qltb y 0) eqn:S.
  - apply Qltb_iff in S.
    assert (R : round_pos (- x) = round_pos (- y))
      by (apply round_pos_comp; [ lra | now rewrite E ]).
    now rewrite R.
  - assert (P : 0 < x).
    { assert (~ y < 0) by (rewrite <- Qltb_iff; congruence). lra. }
    now rewrite (round_pos_comp x y P E).
Qed.

Lemma round64_not_NaN (x : Q) : round64 x <> NaN.
Proof.
  unfold round64.
  destruct (Qeq_bool x 0); [ discriminate | ].
  destruct (Qltb x 0);
    [ destruct (Qle_bool (2 ^ 1024) (round_pos (- x)))
    | destruct (Qle_bool (2 ^ 1024) (round_pos x)) ]; discriminate.
Qed.

Lemma round64_zero (x : Q) : x == 0 -> round64 x = Fin 0.
Proof.
  intros E. unfold round64.
  assert (H : Qeq_bool x 0 = true) by now apply Qeq_bool_iff.
  now rewrite H.
Qed.

(** The three shapes of a rounded value. *)
Lemma round64_cases (x : Q) :
  (x == 0 /\ round64 x = Fin 0)
  \/ (x < 0 /\ 2 ^ 1024 <= round_pos (- x) /\ round64 x = NegInf)
  \/ (x < 0 /\ round_pos (- x) < 2 ^ 1024
      /\ round64 x = Fin (Qred (- round_pos (- x))))
  \/ (0 < x /\ 2 ^ 1024 <= round_pos x /\ round64 x = PosInf)
  \/ (0 < x /\ round_pos x < 2 ^ 1024 /\ round64 x = Fin (Qred (round_pos x))).
Proof.
  unfold round64.
  destruct (Qeq_bool x 0) eqn:Z0.
  - left. split; [ now apply Qeq_bool_iff | reflexivity ].
  - assert (N : ~ x == 0) by (rewrite <- Qeq_bool_iff; congruence).
    destruct (Qltb x 0) eqn:S.
    + apply Qltb_iff in S.
      destruct (Qle_bool (2 ^ 1024) (round_pos (- x))) eqn:O.
      * right; left. apply Qle_bool_iff in O. now repeat split.
      * right; right; left.
        assert (~ 2 ^ 1024 <= round_pos (- x)) by (rewrite <- Qle_bool_iff; congruence).
        repeat split; [ exact S | lra ].
    + assert (P : 0 < x).
      { assert (~ x < 0) by (rewrite <- Qltb_iff; congruence). lra. }
      destruct (Qle_bool (2 ^ 1024) (round_pos x)) eqn:O.
      * right; right; right; left. apply Qle_bool_iff in O. now repeat split.
      * right; right; right; right.
        assert (~ 2 ^ 1024 <= round_pos x) by (rewrite <- Qle_bool_iff; congruence).
        repeat split; [ exact P | lra ].
Qed.

Lemma round64_mono (x y : Q) : x <= y -> leb (round64 x) (round64 y) = true.
Proof.
  intros H.
  assert (F1 : 0 < x -> 0 <= round_pos x) by apply round_pos_nonneg.
  assert (F2 : 0 < y -> 0 <= round_pos y) by apply round_pos_nonneg.
  assert (F3 : x < 0 -> 0 <= round_pos (- x)) by (intros; apply round_pos_nonneg; lra).
  assert (F4 : y < 0 -> 0 <= round_pos (- y)) by (intros; apply round_pos_nonneg; lra).
  assert (F5 : 0 < x -> round_pos x <= round_pos y)
    by (intros; now apply round_pos_mono).
  assert (F6 : y < 0 -> round_pos (- y) <= round_pos (- x))
    by (intros; apply round_pos_mono; lra).
  destruct (round64_cases x) as [[Sx Ex] | [[Sx [Ox Ex]] | [[Sx [Ox Ex]] | [[Sx [Ox Ex]] | [Sx [Ox Ex]]]]]];
  destruct (round64_cases y) as [[Sy Ey] | [[Sy [Oy Ey]] | [[Sy [Oy Ey]] | [[Sy [Oy Ey]] | [Sy [Oy Ey]]]]]];
    rewrite Ex, Ey;
    repeat match goal with
           | Hf : ?A -> _, Ha : ?A |- _ => specialize (Hf Ha)
           end;
    cbn [leb]; try reflexivity; try (exfalso; lra);
    apply Qle_bool_iff; rewrite ?Qred_correct; lra.
Qed.

(** ** The order of numbers and the monotone operations *)

Lemma num_le_Fin (x y : Q) : num_le (Fin x) (Fin y) <-> x <= y.
Proof. unfold num_le. simpl. apply Qle_bool_iff. Qed.

Lemma num_le_refl (a : number) : a <> NaN -> num_le a a.
Proof.
  unfold num_le. destruct a; simpl; try reflexivity; try contradiction.
  intros _. apply Qle_bool_iff. lra.
Qed.

Lemma num_le_trans (a b c : number) : num_le a b -> num_le b c -> num_le a c.
Proof.
  unfold num_le. destruct a, b, c; simpl; try reflexivity; try discriminate.
  rewrite !Qle_bool_iff. intros; lra.
Qed.

Lemma num_le_not_NaN (a b : number) : num_le a b -> a <> NaN /\ b <> NaN.
Proof. unfold num_le. destruct a, b; simpl; try discriminate; split; discriminate. Qed.

Lemma num_le_antisym_Z (a b : Z) :
  num_le (num_of_Z a) (num_of_Z b) -> num_le (num_of_Z b) (num_of_Z a) -> a = b.
Proof.
  unfold num_of_Z. rewrite !num_le_Fin, <- !Zle_Qle. lia.
Qed.

Lemma num_le_Z (a b : Z) : num_le (num_of_Z a) (num_of_Z b) <-> (a <= b)%Z.
Proof. unfold num_of_Z. now rewrite num_le_Fin, <- Zle_Qle. Qed.

Lemma round64_le (x y : Q) : x <= y -> num_le (round64 x) (round64 y).
Proof. apply round64_mono. Qed.

Ltac not_nan H := destruct (num_le_not_NaN _ _ H).

Lemma add_mono_r (c : Q) (a b : number) :
  num_le a b -> num_le (a + Fin c)%js (b + Fin c)%js.
Proof.
  intros H. destruct a as [ | | | x], b as [ | | | y]; try discriminate H;
    cbn [add]; try reflexivity.
  - destruct (round64 (y + c)) eqn:E; try reflexivity.
    now apply round64_not_NaN in E.
  - assert (N := round64_not_NaN (x + c)).
    unfold num_le. destruct (round64 (x + c)); simpl; congruence.
  - apply round64_le. apply num_le_Fin in H. lra.
Qed.

Lemma add_mono_l (c : Q) (a b : number) :
  num_le a b -> num_le (Fin c + a)%js (Fin c + b)%js.
Proof.
  intros H. destruct a as [ | | | x], b as [ | | | y]; try discriminate H;
    cbn [add]; try reflexivity.
  - destruct (round64 (c + y)) eqn:E; try reflexivity.
    now apply round64_not_NaN in E.
  - assert (N := round64_not_NaN (c + x)).
    unfold num_le. destruct (round64 (c + x)); simpl; congruence.
  - apply round64_le. apply num_le_Fin in H. lra.
Qed.

Lemma signed_inf_pos (b : bool) (c : Q) :
  0 < c -> signed_inf b c = if b then PosInf else NegInf.
Proof.
  intros Hc. unfold signed_inf.
  assert (E : Qltb c 0 = false).
  { apply not_true_is_false. rewrite Qltb_iff. lra. }
  rewrite E. now destruct b.
Qed.

Lemma Qeq_bool_pos (c : Q) : 0 < c -> Qeq_bool c 0 = false.
Proof.
  intros Hc. apply not_true_is_false. rewrite Qeq_bool_iff. lra.
Qed.

Lemma mul_mono_r (c : Q) (a b : number) :
  0 < c -> num_le a b -> num_le (a * Fin c)%js (b * Fin c)%js.
Proof.
  intros Hc H. destruct a as [ | | | x], b as [ | | | y]; try discriminate H;
    cbn [mul]; rewrite ?(Qeq_bool_pos c Hc), ?(signed_inf_pos _ c Hc);
    try reflexivity.
  - destruct (round64 (y * c)) eqn:E; try reflexivity.
    now apply round64_not_NaN in E.
  - assert (N := round64_not_NaN (x * c)).
    unfold num_le. destruct (round64 (x * c)); simpl; congruence.
  - apply round64_le. apply num_le_Fin in H. nra.
Qed.

Lemma div_mono_r (c : Q) (a b : number) :
  0 < c -> num_le a b -> num_le (a / Fin c)%js (b / Fin c)%js.
Proof.
  intros Hc H. destruct a as [ | | | x], b as [ | | | y]; try discriminate H;
    cbn [div]; rewrite ?(Qeq_bool_pos c Hc), ?(signed_inf_pos _ c Hc);
    try reflexivity.
  - destruct (round64 (y / c)) eqn:E; try reflexivity.
    now apply round64_not_NaN in E.
  - assert (N := round64_not_NaN (x / c)).
    unfold num_le. destruct (round64 (x / c)); simpl; congruence.
  - apply round64_le. apply num_le_Fin in H.
    unfold Qdiv. apply Qmult_le_compat_r; [ exact H | ].
    apply Qlt_le_weak, Qinv_lt_0_compat, Hc.
Qed.

Lemma neg_antitone (a b : number) : num_le a b -> num_le (- b)%js (- a)%js.
Proof.
  intros H. destruct a as [ | | | x], b as [ | | | y]; try discriminate H;
    cbn [neg]; try reflexivity.
  apply num_le_Fin. apply num_le_Fin in H. lra.
Qed.

Lemma sub_mono_l (c : Q) (a b : number) :
  num_le a b -> num_le (a - Fin c)%js (b - Fin c)%js.
Proof.
  intros H. destruct a as [ | | | x], b as [ | | | y]; try discriminate H;
    cbn [sub]; try reflexivity.
  - destruct (round64 (y - c)) eqn:E; try reflexivity.
    now apply round64_not_NaN in E.
  - assert (N := round64_not_NaN (x - c)).
    unfold num_le. destruct (round64 (x - c)); simpl; congruence.
  - apply round64_le. apply num_le_Fin in H. lra.
Qed.

Lemma sub_antitone_r (c : Q) (a b : number) :
  num_le a b -> num_le (Fin c - b)%js (Fin c - a)%js.
Proof.
  intros H. destruct a as [ | | | x], b as [ | | | y]; try discriminate H;
    cbn [sub]; try reflexivity.
  - assert (N := round64_not_NaN (c - y)).
    unfold num_le. destruct (round64 (c - y)); simpl; congruence.
  - destruct (round64 (c - x)) eqn:E; try reflexivity.
    now apply round64_not_NaN in E.
  - apply round64_le. apply num_le_Fin in H. lra.
Qed.

Lemma round_half_up_mono (x y : Q) : x <= y -> (round_half_up x <= round_half_up y)%Z.
Proof. intros H. unfold round_half_up. apply Qfloor_resp_le. lra. Qed.

Lemma Math_round_mono (a b : number) :
  num_le a b -> num_le (Math_round a) (Math_round b).
Proof.
  intros H. destruct a as [ | | | x], b as [ | | | y]; try discriminate H;
    cbn [Math_round]; try reflexivity.
  apply num_le_Z, round_half_up_mono. now apply num_le_Fin.
Qed.

Lemma Math_min_mono (c : Q) (a b : number) :
  num_le a b -> num_le (Math_min (Fin c) a) (Math_min (Fin c) b).
Proof.
  intros H. destruct a as [ | | | x], b as [ | | | y]; try discriminate H;
    unfold Math_min; cbn [leb]; try (apply num_le_refl; discriminate).
  - reflexivity.
  - destruct (Qle_bool c y); reflexivity.
  - destruct (Qle_bool c x) eqn:E; [ apply num_le_refl; discriminate | ].
    apply num_le_Fin.
    assert (~ c <= x) by (rewrite <- Qle_bool_iff; congruence). lra.
  - apply num_le_Fin in H.
    destruct (Qle_bool c x) eqn:E1, (Qle_bool c y) eqn:E2; apply num_le_Fin;
      rewrite ?Qle_bool_iff in *;
      try (assert (~ c <= x) by (rewrite <- Qle_bool_iff; congruence));
      try (assert (~ c <= y) by (rewrite <- Qle_bool_iff; congruence)); lra.
Qed.

Lemma Math_max_mono (c : Q) (a b : number) :
  num_le a b -> num_le (Math_max (Fin c) a) (Math_max (Fin c) b).
Proof.
  intros H. destruct a as [ | | | x], b as [ | | | y]; try discriminate H;
    unfold Math_max; cbn [leb]; try (apply num_le_refl; discriminate).
  - reflexivity.
  - destruct (Qle_bool c y) eqn:E; [ | apply num_le_refl; discriminate ].
    apply num_le_Fin. now apply Qle_bool_iff.
  - destruct (Qle_bool c x); reflexivity.
  - apply num_le_Fin in H.
    destruct (Qle_bool c x) eqn:E1, (Qle_bool c y) eqn:E2; apply num_le_Fin;
      rewrite ?Qle_bool_iff in *;
      try (assert (~ c <= x) by (rewrite <- Qle_bool_iff; congruence));
      try (assert (~ c <= y) by (rewrite <- Qle_bool_iff; congruence)); lra.
Qed.

Lemma clamp_mono (lo hi : Q) (a b : number) :
  num_le a b -> num_le (clamp a (Fin lo) (Fin hi)) (clamp b (Fin lo) (Fin hi)).
Proof. intros H. unfold clamp. now apply Math_max_mono, Math_min_mono. Qed.

Lemma constant_30 : (P_MAX - P_MIN)%js = Fin 30.
Proof. vm_compute. reflexivity. Qed.

Lemma quantizeToGrid_mono (a b : number) :
  num_le a b -> num_le (quantizeToGrid a) (quantizeToGrid b).
Proof.
  intros H. unfold quantizeToGrid. rewrite constant_30.
  unfold P_MIN, P_MAX, STEP, num_of_Z.
  apply clamp_mono, mul_mono_r; [ reflexivity | ].
  apply Math_round_mono, div_mono_r; [ reflexivity | ].
  apply add_mono_l, div_mono_r; [ reflexivity | ].
  apply mul_mono_r; [ reflexivity | ].
  now apply add_mono_r.
Qed.

Open Scope Q_scope.

(** ** The quantizer on every number *)

Lemma add_not_NaN (a : number) (c : Q) : a <> NaN -> (a + Fin c)%js <> NaN.
Proof.
  destruct a; cbn [add]; try discriminate; try contradiction.
  intros _. apply round64_not_NaN.
Qed.

Lemma add_not_NaN_l (a : number) (c : Q) : a <> NaN -> (Fin c + a)%js <> NaN.
Proof.
  destruct a; cbn [add]; try discriminate; try contradiction.
  intros _. apply round64_not_NaN.
Qed.

Lemma mul_not_NaN (a : number) (c : Q) : 0 < c -> a <> NaN -> (a * Fin c)%js <> NaN.
Proof.
  intros Hc. destruct a; cbn [mul];
    rewrite ?(Qeq_bool_pos c Hc), ?(signed_inf_pos _ c Hc);
    try discriminate; try contradiction.
  intros _. apply round64_not_NaN.
Qed.

Lemma div_not_NaN (a : number) (c : Q) : 0 < c -> a <> NaN -> (a / Fin c)%js <> NaN.
Proof.
  intros Hc. destruct a; cbn [div];
    rewrite ?(Qeq_bool_pos c Hc), ?(signed_inf_pos _ c Hc);
    try discriminate; try contradiction.
  intros _. apply round64_not_NaN.
Qed.

Lemma Math_round_shape (a : number) :
  a <> NaN ->
  Math_round a = PosInf \/ Math_round a = NegInf
  \/ exists n : Z, Math_round a = num_of_Z n.
Proof.
  destruct a as [ | | | x]; cbn [Math_round]; try contradiction; auto.
  intros _. right; right. now eexists.
Qed.

Lemma snap_small (n : Z) :
  (-5 <= n <= 5)%Z -> (num_of_Z n * STEP)%js = num_of_Z (n * 3).
Proof.
  intros H.
  assert (E : (n = -5 \/ n = -4 \/ n = -3 \/ n = -2 \/ n = -1 \/ n = 0 \/ n = 1
               \/ n = 2 \/ n = 3 \/ n = 4 \/ n = 5)%Z) by lia.
  repeat (destruct E as [E | E]; [ subst n; vm_compute; reflexivity | ]).
  subst n. vm_compute. reflexivity.
Qed.

Lemma clamp_high (a : number) : num_le P_MAX a -> clamp a P_MIN P_MAX = P_MAX.
Proof.
  intros H. unfold clamp, P_MIN, P_MAX, num_of_Z in *.
  destruct a as [ | | | x]; try discriminate H; try reflexivity.
  apply num_le_Fin in H. unfold Math_min, Math_max. cbn [leb].
  assert (E : Qle_bool (inject_Z 15) x = true) by now apply Qle_bool_iff.
  rewrite E. reflexivity.
Qed.

Lemma clamp_low (a : number) :
  num_le a (num_of_Z (-18)) -> clamp a P_MIN P_MAX = P_MIN.
Proof.
  intros H. unfold clamp, P_MIN, P_MAX, num_of_Z in *.
  destruct a as [ | | | x]; try discriminate H; try reflexivity.
  apply num_le_Fin in H. unfold Math_min, Math_max. cbn [leb].
  assert (E : Qle_bool (inject_Z 15) x = false).
  { apply not_true_is_false. rewrite Qle_bool_iff. unfold inject_Z in *. lra. }
  rewrite E. cbn [leb].
  assert (E2 : Qle_bool (inject_Z (-15)) x = false).
  { apply not_true_is_false. rewrite Qle_bool_iff. unfold inject_Z in *. lra. }
  now rewrite E2.
Qed.

Lemma snap_clamp (n : Z) :
  exists g : Z,
    In g grid /\ clamp (num_of_Z n * STEP)%js P_MIN P_MAX = num_of_Z g.
Proof.
  assert (C : (n <= -6 \/ -5 <= n <= 5 \/ 6 <= n)%Z) by lia.
  destruct C as [C | [C | C]].
  - exists (-15)%Z. split; [ simpl; tauto | ].
    apply clamp_low.
    apply num_le_trans with (num_of_Z (-6) * STEP)%js; [ | vm_compute; reflexivity ].
    apply mul_mono_r; [ reflexivity | ]. now apply num_le_Z.
  - exists (clampZ (n * 3) (-15) 15). split; [ apply clampZ_grid | ].
    rewrite (snap_small n C).
    apply (clamp_num_of_Z (n * 3) (-15) 15). lia.
  - exists 15%Z. split; [ simpl; tauto | ].
    apply clamp_high.
    apply num_le_trans with (num_of_Z 6 * STEP)%js; [ vm_compute; reflexivity | ].
    apply mul_mono_r; [ reflexivity | ]. now apply num_le_Z.
Qed.

Lemma quantizeToGrid_image (a : number) :
  (a = NaN /\ quantizeToGrid a = NaN)
  \/ exists g : Z, In g grid /\ quantizeToGrid a = num_of_Z g.
Proof.
  destruct a as [ | | | v].
  - left. now split.
  - right. exists 15%Z. split; [ simpl; tauto | vm_compute; reflexivity ].
  - right. exists (-15)%Z. split; [ simpl; tauto | vm_compute; reflexivity ].
  - right. unfold quantizeToGrid. rewrite constant_30.
    set (q := (_ / STEP)%js).
    assert (N : q <> NaN).
    { unfold q, STEP, P_MIN, num_of_Z.
      apply div_not_NaN; [ reflexivity | ].
      apply add_not_NaN_l, div_not_NaN; [ reflexivity | ].
      apply mul_not_NaN; [ reflexivity | ].
      apply add_not_NaN. discriminate. }
    destruct (Math_round_shape q N) as [E | [E | [n E]]]; rewrite E.
    + exists 15%Z. split; [ simpl; tauto | vm_compute; reflexivity ].
    + exists (-15)%Z. split; [ simpl; tauto | vm_compute; reflexivity ].
    + apply snap_clamp.
Qed.

Lemma quantizeToGrid_comp (v w : Q) :
  v == w -> quantizeToGrid (Fin v) = quantizeToGrid (Fin w).
Proof.
  intros E. unfold quantizeToGrid. cbn [add num_of_Z].
  now rewrite (round64_comp (v + inject_Z 1) (w + inject_Z 1)) by (now rewrite E).
Qed.

Lemma grid_bounds (g : Z) : In g grid -> (-15 <= g <= 15)%Z.
Proof. intros H. each_grid_value H; lia. Qed.

Lemma quantizeToGrid_Fin_image (v : Q) :
  exists g : Z, In g grid /\ quantizeToGrid (Fin v) = num_of_Z g.
Proof.
  destruct (quantizeToGrid_image (Fin v)) as [[H _] | H]; [ discriminate | exact H ].
Qed.

Lemma quantize_squeeze (a b v : Q) (g : Z) :
  a <= v <= b ->
  quantizeToGrid (Fin a) = num_of_Z g ->
  quantizeToGrid (Fin b) = num_of_Z g ->
  quantizeToGrid (Fin v) = num_of_Z g.
Proof.
  intros [L U] Ea Eb.
  destruct (quantizeToGrid_Fin_image v) as [g' [_ Ev]].
  assert (M1 : num_le (quantizeToGrid (Fin a)) (quantizeToGrid (Fin v)))
    by now apply quantizeToGrid_mono, num_le_Fin.
  assert (M2 : num_le (quantizeToGrid (Fin v)) (quantizeToGrid (Fin b)))
    by now apply quantizeToGrid_mono, num_le_Fin.
  rewrite Ea, Ev in M1. rewrite Eb, Ev in M2. rewrite Ev.
  apply num_le_Z in M1, M2. f_equal. lia.
Qed.

Lemma quantize_above (a v : Q) :
  a <= v -> quantizeToGrid (Fin a) = num_of_Z 15 ->
  quantizeToGrid (Fin v) = num_of_Z 15.
Proof.
  intros L Ea.
  destruct (quantizeToGrid_Fin_image v) as [g [Hg Ev]].
  assert (M : num_le (quantizeToGrid (Fin a)) (quantizeToGrid (Fin v)))
    by now apply quantizeToGrid_mono, num_le_Fin.
  rewrite Ea, Ev in M. apply num_le_Z in M. apply grid_bounds in Hg.
  rewrite Ev. f_equal. lia.
Qed.

Lemma quantize_below (b v : Q) :
  v <= b -> quantizeToGrid (Fin b) = num_of_Z (-15) ->
  quantizeToGrid (Fin v) = num_of_Z (-15).
Proof.
  intros U Eb.
  destruct (quantizeToGrid_Fin_image v) as [g [Hg Ev]].
  assert (M : num_le (quantizeToGrid (Fin v)) (quantizeToGrid (Fin b)))
    by now apply quantizeToGrid_mono, num_le_Fin.
  rewrite Eb, Ev in M. apply num_le_Z in M. apply grid_bounds in Hg.
  rewrite Ev. f_equal. lia.
Qed.


Open Scope Q_scope.

(* ------------------------------------------------------------------ *)
(** ** The quantizer *)

(** C1 (range invariant).  For all finite inputs [x] and [y], the pair that
    [quantize] returns has both components among the grid values
    -15, -12, ..., 12, 15. *)
Theorem quantize_range (x y : Q) :
  exists px py : Z,
    In px grid /\ In py grid /\
    quantize (Fin x) (Fin y) = (num_of_Z px, num_of_Z py).
Proof.
  destruct (quantizeToGrid_Fin_image x) as [px [Hx Ex]].
  destruct (quantizeToGrid_Fin_image y) as [py [Hy Ey]].
  exists px, py. repeat split; try assumption.
  unfold quantize. now rewrite Ex, Ey.
Qed.



(** C3, as the specification states it, fails: the quantizer resolves exact
    half steps neither by rounding half away from zero (at [v = -1/2] it
    returns -6, not -9) nor by rounding half to even (at [v = 1/2] it
    returns 9, not 6). *)
Lemma tie_break_is_neither_named_rule :
  ~ (ties_resolved_by round_half_away \/ ties_resolved_by round_half_even).
Proof.
  intros [H | H].
  - specialize (H (- (1 # 2))).
    assert (T : is_tie (linear_map (- (1 # 2)) / inject_Z 3))
      by (exists (-3)%Z; reflexivity).
    specialize (H T). vm_compute in H. discriminate H.
  - specialize (H (1 # 2)).
    assert (T : is_tie (linear_map (1 # 2) / inject_Z 3))
      by (exists 2%Z; reflexivity).
    specialize (H T). vm_compute in H. discriminate H.
Qed.

Lemma linear_map_eq (v : Q) : linear_map v == 15 * v.
Proof. unfold linear_map. field. Qed.

Lemma tie_input (v : Q) (k : Z) :
  linear_map v / inject_Z 3 == inject_Z k + (1 # 2) ->
  v == (2 * inject_Z k + 1) / 10.
Proof.
  intros H. rewrite linear_map_eq in H.
  unfold Qdiv in *. change (/ inject_Z 3) with (1 # 3) in H.
  change (/ 10) with (1 # 10). lra.
Qed.

Lemma quantize_at_tie (k : Z) :
  quantizeToGrid (Fin ((2 * inject_Z k + 1) / 10))
  = num_of_Z (clampZ ((k + 1) * 3) (-15) 15).
Proof.
  assert (C : (k <= -6 \/ k = -5 \/ k = -4 \/ k = -3 \/ k = -2 \/ k = -1
               \/ k = 0 \/ k = 1 \/ k = 2 \/ k = 3 \/ k = 4 \/ 5 <= k)%Z) by lia.
  destruct C as [C | C].
  { replace (clampZ ((k + 1) * 3) (-15) 15) with (-15)%Z by (unfold clampZ; lia).
    apply quantize_below with (- (11 # 10)); [ | vm_compute; reflexivity ].
    assert (L : inject_Z k <= inject_Z (-6)) by now rewrite <- Zle_Qle.
    unfold Qdiv. change (/ 10) with (1 # 10). change (inject_Z (-6)) with (-6 # 1) in L.
    lra. }
  repeat (destruct C as [C | C]; [ subst k; vm_compute; reflexivity | ]).
  replace (clampZ ((k + 1) * 3) (-15) 15) with 15%Z by (unfold clampZ; lia).
  apply quantize_above with (11 # 10); [ | vm_compute; reflexivity ].
  assert (L : inject_Z 5 <= inject_Z k) by now rewrite <- Zle_Qle.
  unfold Qdiv. change (/ 10) with (1 # 10). change (inject_Z 5) with 5 in L.
  lra.
Qed.

(** C3, amended.  An exact half step is resolved by one rule, for positive
    and negative values alike: the tie goes to the neighbour closer to
    plus infinity.  When [raw / STEP] is [k + 1/2], [Math.round] gives
    [k + 1] and the quantizer returns the clamped [3 * (k + 1)]. *)
Theorem ties_round_toward_positive (v : Q) (k : Z) :
  linear_map v / inject_Z 3 == inject_Z k + (1 # 2) ->
  Math_round (Fin (linear_map v / inject_Z 3)) = num_of_Z (k + 1)
  /\ quantizeToGrid (Fin v) = num_of_Z (clampZ ((k + 1) * 3) (-15) 15).
Proof.
  intros H.
  assert (E : round_half_up (linear_map v / inject_Z 3) = (k + 1)%Z).
  { rewrite (round_half_up_comp _ _ H). apply round_half_up_tie. }
  split.
  - simpl. now rewrite E.
  - rewrite (quantizeToGrid_comp v _ (tie_input v k H)). apply quantize_at_tie.
Qed.

Lemma ties_round_toward_positive_witness :
  linear_map (- (1 # 2)) / inject_Z 3 == inject_Z (-3) + (1 # 2)
  /\ Math_round (Fin (linear_map (- (1 # 2)) / inject_Z 3)) = num_of_Z (-2)
  /\ quantizeToGrid (Fin (- (1 # 2))) = num_of_Z (-6).
Proof.
  split; [ reflexivity | ].
  apply (ties_round_toward_positive (- (1 # 2)) (-3)). reflexivity.
Defined.

Open Scope Q_scope.
Open Scope string_scope.

(* ------------------------------------------------------------------ *)
(** ** The asset identifier *)

(** C4 (format).  For grid coordinates [px] and [py], each is rendered with
    one fractional digit, the minus sign becomes [m] and the point [p], and
    the file name is [gaze_px<px>_py<py>_256.webp]; the two sample names of
    the specification come out as written. *)
Theorem gridToFilename_format (px py : Z) :
  In px grid -> In py grid ->
  toFixed1 (num_of_Z px) = fixed1 px
  /\ toFixed1 (num_of_Z py) = fixed1 py
  /\ sanitize (num_of_Z px) = encode_coord px
  /\ sanitize (num_of_Z py) = encode_coord py
  /\ gridToFilename (num_of_Z px) (num_of_Z py)
     = "gaze_px" ++ encode_coord px ++ "_py" ++ encode_coord py ++ "_256.webp"
  /\ gridToFilename (num_of_Z 0) (num_of_Z 0) = "gaze_px0p0_py0p0_256.webp"
  /\ gridToFilename (num_of_Z (-3)) (num_of_Z 15) = "gaze_pxm3p0_py15p0_256.webp".
Proof.
  intros Hx Hy.
  repeat split; try (now apply toFixed1_grid); try (now apply sanitize_grid).
  now rewrite gridToFilename_grid.
Qed.

Lemma gridToFilename_format_witness :
  In (-12)%Z grid /\ In 9%Z grid
  /\ gridToFilename (num_of_Z (-12)) (num_of_Z 9) = "gaze_pxm12p0_py9p0_256.webp".
Proof.
  assert (Hx : In (-12)%Z grid) by (simpl; tauto).
  assert (Hy : In 9%Z grid) by (simpl; tauto).
  split; [ exact Hx | split; [ exact Hy | ] ].
  exact (proj1 (proj2 (proj2 (proj2 (proj2
           (gridToFilename_format (-12) 9 Hx Hy)))))).
Defined.

(** C5 (injective encoding).  Two distinct grid coordinates have distinct
    file names, and the coordinate is recovered from the file name. *)
Theorem gridToFilename_injective (px1 py1 px2 py2 : Z) :
  In px1 grid -> In py1 grid -> In px2 grid -> In py2 grid ->
  ((px1, py1) <> (px2, py2) ->
   gridToFilename (num_of_Z px1) (num_of_Z py1)
   <> gridToFilename (num_of_Z px2) (num_of_Z py2))
  /\ decode (gridToFilename (num_of_Z px1) (num_of_Z py1)) = Some (px1, py1).
Proof.
  intros H1 H2 H3 H4. split.
  - intros Hne Heq. apply Hne.
    assert (D1 := decode_gridToFilename px1 py1 H1 H2).
    assert (D2 := decode_gridToFilename px2 py2 H3 H4).
    rewrite Heq, D2 in D1. now injection D1 as -> ->.
  - now apply decode_gridToFilename.
Qed.

Lemma gridToFilename_injective_witness :
  gridToFilename (num_of_Z 3) (num_of_Z (-3))
  <> gridToFilename (num_of_Z (-3)) (num_of_Z 3)
  /\ decode "gaze_px3p0_pym3p0_256.webp" = Some (3, -3)%Z.
Proof.
  assert (Ha : In 3%Z grid) by (simpl; tauto).
  assert (Hb : In (-3)%Z grid) by (simpl; tauto).
  destruct (gridToFilename_injective 3 (-3) (-3) 3 Ha Hb Hb Ha) as [Hne Hd].
  split; [ apply Hne; discriminate | exact Hd ].
Defined.

(** C6 (stability on grid points).  For grid values [gx] and [gy], the
    samples [gx / 15] and [gy / 15] quantize back to [gx] and [gy], so the
    file name of the re-quantized point is the file name of the point; and
    quantizing the sample of any quantizer output returns that output. *)
Theorem requantize_stable (gx gy : Z) :
  In gx grid -> In gy grid ->
  quantize (num_of_Z gx / P_MAX)%js (num_of_Z gy / P_MAX)%js
  = (num_of_Z gx, num_of_Z gy)
  /\ gridToFilename (quantizeToGrid (num_of_Z gx / P_MAX)%js)
                    (quantizeToGrid (num_of_Z gy / P_MAX)%js)
     = gridToFilename (num_of_Z gx) (num_of_Z gy)
  /\ (forall v : Q,
        quantizeToGrid (quantizeToGrid (Fin v) / P_MAX)%js
        = quantizeToGrid (Fin v)).
Proof.
  assert (S : forall g, In g grid ->
                quantizeToGrid (num_of_Z g / P_MAX)%js = num_of_Z g).
  { intros g Hg. each_grid_value Hg; vm_compute; reflexivity. }
  intros Hx Hy. unfold quantize. rewrite (S gx Hx), (S gy Hy).
  repeat split.
  intros v. destruct (quantizeToGrid_Fin_image v) as [g [Hg E]].
  rewrite E. now apply S.
Qed.

Lemma requantize_stable_witness :
  quantize (num_of_Z (-9) / P_MAX)%js (num_of_Z 12 / P_MAX)%js
  = (num_of_Z (-9), num_of_Z 12).
Proof.
  assert (Hx : In (-9)%Z grid) by (simpl; tauto).
  assert (Hy : In 12%Z grid) by (simpl; tauto).
  exact (proj1 (requantize_stable (-9) 12 Hx Hy)).
Defined.

(* ------------------------------------------------------------------ *)
(** ** Orientation mode *)

(** C7, as the specification states it, fails: with orientation mode on, a
    mouse move is pointer input and leaves orientation mode on. *)
Lemma mouse_move_keeps_orientation_mode :
  let t := enableOrientation demo_tracker in
  let ev := MouseMove demo_rect (num_of_Z 10) (num_of_Z 10) in
  useOrientation t = true
  /\ is_pointer_input ev = true
  /\ useOrientation (step t ev) <> false.
Proof. repeat split. discriminate. Qed.

(** C7, amended.  With orientation mode on, a touch event that carries at
    least one touch point switches orientation mode off; a mouse move
    leaves the mode flag as it was, and a touch event without a touch point
    changes nothing. *)
Theorem touch_disables_orientation (t : Tracker) (rect : DOMRect)
    (p : TouchPoint) (ps : list TouchPoint) :
  useOrientation t = true ->
  useOrientation (step t (Touch rect (Some (p :: ps)))) = false
  /\ (forall x y : number,
        useOrientation (step t (MouseMove rect x y)) = useOrientation t)
  /\ step t (Touch rect (Some [])) = t
  /\ step t (Touch rect None) = t.
Proof. intros _. repeat split. Qed.

Lemma touch_disables_orientation_witness :
  useOrientation (enableOrientation demo_tracker) = true
  /\ useOrientation
       (step (enableOrientation demo_tracker)
             (Touch demo_rect (Some [mkTouch (num_of_Z 10) (num_of_Z 10)])))
     = false.
Proof.
  split; [ reflexivity | ].
  exact (proj1 (touch_disables_orientation (enableOrientation demo_tracker)
                  demo_rect (mkTouch (num_of_Z 10) (num_of_Z 10)) []
                  eq_refl)).
Defined.

Lemma tilt_sample_same (v : Q) : tilt_sample v v = Fin 0.
Proof.
  unfold tilt_sample, tilt_delta. cbn [sub].
  rewrite (round64_zero (v - v)) by ring.
  vm_compute. reflexivity.
Qed.

Lemma tilt_sample_comp (v v' b b' : Q) :
  v == v' -> b == b' -> tilt_sample v b = tilt_sample v' b'.
Proof.
  intros Ev Eb. unfold tilt_sample, tilt_delta. cbn [sub].
  now rewrite (round64_comp (v - b) (v' - b')) by (now rewrite Ev, Eb).
Qed.

Lemma clamp_not_NaN (a : number) (lo hi : Q) :
  a <> NaN -> clamp a (Fin lo) (Fin hi) <> NaN.
Proof.
  intros H. unfold clamp, Math_max, Math_min.
  destruct a as [ | | | x]; try contradiction; cbn [leb].
  - destruct (Qle_bool lo hi); discriminate.
  - discriminate.
  - destruct (Qle_bool hi x); cbn [leb];
      [ destruct (Qle_bool lo hi) | destruct (Qle_bool lo x) ]; discriminate.
Qed.

Lemma tilt_sample_not_NaN (v b : Q) : tilt_sample v b <> NaN.
Proof.
  unfold tilt_sample, tilt_delta, num_of_Z. apply clamp_not_NaN.
  apply div_not_NaN; [ reflexivity | ].
  cbn [sub]. assert (N := round64_not_NaN (v - b)).
  destruct (round64 (v - b)); cbn [neg]; congruence.
Qed.

(** What [handleOrientation] shows when orientation mode is on. *)
Lemma handleOrientation_shows (t : Tracker) (e : OrientationEvent)
    (vb vg b0 g0 : Q) :
  useOrientation t = true ->
  nullable_or_zero (e_beta e) = Fin vb ->
  nullable_or_zero (e_gamma e) = Fin vg ->
  (if hasCalibrated t then baseOrientation t
   else {| beta := Fin vb; gamma := Fin vg |})
  = {| beta := Fin b0; gamma := Fin g0 |} ->
  img_src (handleOrientation e t)
  = basePath t ++ gridToFilename (quantizeToGrid (tilt_sample vg g0))
                                 (quantizeToGrid (tilt_sample vb b0)).
Proof.
  intros Hu Hb Hg Hbase. unfold handleOrientation.
  rewrite Hu, Hb, Hg. simpl negb. cbv iota.
  assert (E : (if negb (hasCalibrated t)
               then {| beta := Fin vb; gamma := Fin vg |}
               else baseOrientation t)
              = {| beta := Fin b0; gamma := Fin g0 |})
    by (destruct (hasCalibrated t); exact Hbase).
  rewrite E. reflexivity.
Qed.

Lemma quantizeToGrid_zero : quantizeToGrid (Fin 0) = num_of_Z 0.
Proof. vm_compute. reflexivity. Qed.

(** C8 (calibration).  Enabling orientation mode marks the instance
    uncalibrated.  The first reading after that, absent values counting as
    0, becomes the baseline and marks it calibrated.  No later event of the
    session changes the baseline.  While the mode is still on, the same
    reading again has a normalized sample of (0, 0), quantizes to (0, 0) and
    displays the center asset, whatever the raw angles are. *)
Theorem calibration_baseline (t : Tracker) (b g : option Q) (evs : list Event) :
  same_session evs ->
  let e := reading b g in
  let t0 := enableOrientation t in
  let t1 := handleOrientation e t0 in
  let t2 := run t1 evs in
  let nx := clamp (- (nullable_or_zero (e_gamma e) - gamma (baseOrientation t2))
                     / num_of_Z 30)%js (num_of_Z (-1)) (num_of_Z 1) in
  let ny := clamp (- (nullable_or_zero (e_beta e) - beta (baseOrientation t2))
                     / num_of_Z 30)%js (num_of_Z (-1)) (num_of_Z 1) in
  (useOrientation t0 = true /\ hasCalibrated t0 = false)
  /\ (hasCalibrated t1 = true
      /\ baseOrientation t1
         = {| beta := nullable_or_zero (e_beta e);
              gamma := nullable_or_zero (e_gamma e) |}
      /\ num_eq (beta (baseOrientation t1)) (Fin (value_or_zero b))
      /\ num_eq (gamma (baseOrientation t1)) (Fin (value_or_zero g)))
  /\ (hasCalibrated t2 = true /\ baseOrientation t2 = baseOrientation t1)
  /\ (useOrientation t2 = true ->
      num_eq nx (Fin 0) /\ num_eq ny (Fin 0)
      /\ quantize nx ny = (num_of_Z 0, num_of_Z 0)
      /\ img_src (handleOrientation e t2) = basePath t ++ center_asset).
Proof.
  intros Hs e t0 t1 t2 nx ny.
  destruct (nullable_or_zero_reading b) as [vb [Eb Hb]].
  destruct (nullable_or_zero_reading g) as [vg [Eg Hg]].
  assert (B1 : baseOrientation t1 = {| beta := Fin vb; gamma := Fin vg |}).
  { unfold t1, t0, e, handleOrientation, reading.
    cbn [useOrientation hasCalibrated enableOrientation negb baseOrientation
         e_beta e_gamma].
    now rewrite Eb, Eg. }
  assert (C1 : hasCalibrated t1 = true) by reflexivity.
  destruct (run_keeps_baseline evs t1 C1 Hs) as [C2 B2].
  fold t2 in C2, B2.
  split; [ now split | ].
  split.
  { split; [ exact C1 | ]. split; [ reflexivity | ].
    rewrite B1. simpl. now split. }
  split; [ now split | ].
  intros Hu.
  assert (Ex : nx = Fin 0).
  { unfold nx. rewrite B2, B1.
    change (e_gamma e) with (option_map Fin g). rewrite Eg. cbn [gamma].
    apply (tilt_sample_same vg). }
  assert (Ey : ny = Fin 0).
  { unfold ny. rewrite B2, B1.
    change (e_beta e) with (option_map Fin b). rewrite Eb. cbn [beta].
    apply (tilt_sample_same vb). }
  rewrite Ex, Ey. repeat split; try reflexivity.
  rewrite (handleOrientation_shows t2 e vb vg vb vg Hu Eb Eg)
    by (rewrite C2, B2; exact B1).
  rewrite !tilt_sample_same, quantizeToGrid_zero.
  unfold t2. rewrite run_basePath. reflexivity.
Qed.

Lemma calibration_baseline_witness :
  let e := reading (Some (45 # 1)) (Some (- (20 # 1))) in
  let evs := [MouseMove demo_rect (num_of_Z 10) (num_of_Z 10);
              DeviceOrientation (reading (Some (50 # 1)) None)] in
  same_session evs
  /\ useOrientation (run (handleOrientation e (enableOrientation demo_tracker)) evs)
     = true
  /\ img_src (handleOrientation e
                (run (handleOrientation e (enableOrientation demo_tracker)) evs))
     = "/faces/gaze_px0p0_py0p0_256.webp".
Proof.
  intros e evs.
  assert (Hs : same_session evs)
    by (repeat constructor; discriminate).
  split; [ exact Hs | ]. split; [ reflexivity | ].
  destruct (calibration_baseline demo_tracker (Some (45 # 1))
              (Some (- (20 # 1))) evs Hs) as [_ [_ [_ H]]].
  destruct (H eq_refl) as [_ [_ [_ Himg]]].
  exact Himg.
Defined.

Lemma clamp_unit_bounds (a : number) :
  a <> NaN ->
  exists q : Q,
    clamp a (num_of_Z (-1)) (num_of_Z 1) = Fin q /\ -1 <= q <= 1.
Proof.
  intros H. unfold clamp, Math_max, Math_min, num_of_Z.
  destruct a as [ | | | x]; try contradiction; cbn [leb].
  - exists 1. split; [ reflexivity | lra ].
  - exists (-1). split; [ reflexivity | lra ].
  - change (inject_Z 1) with 1. change (inject_Z (-1)) with (-1).
    destruct (Qle_bool 1 x) eqn:E1; cbn [leb].
    + exists 1. split; [ reflexivity | lra ].
    + destruct (Qle_bool (-1) x) eqn:E2.
      * exists x. split; [ reflexivity | ].
        apply Qle_bool_iff in E2.
        assert (~ 1 <= x) by (rewrite <- Qle_bool_iff; congruence). lra.
      * exists (-1). split; [ reflexivity | lra ].
Qed.

Lemma tilt_sample_bounds (v b : Q) :
  exists q : Q, tilt_sample v b = Fin q /\ -1 <= q <= 1.
Proof.
  unfold tilt_sample, tilt_delta. apply clamp_unit_bounds.
  apply div_not_NaN; [ reflexivity | ].
  cbn [sub]. assert (N := round64_not_NaN (v - b)).
  destruct (round64 (v - b)); cbn [neg]; congruence.
Qed.

(** The normalized tilt falls as the reading rises: the axis is inverted. *)
Lemma tilt_sample_antitone (v w b : Q) :
  v <= w -> num_le (tilt_sample w b) (tilt_sample v b).
Proof.
  intros H. unfold tilt_sample, tilt_delta, num_of_Z.
  apply clamp_mono. apply div_mono_r; [ reflexivity | ].
  apply neg_antitone. apply sub_mono_l. now apply num_le_Fin.
Qed.

(** C9 (tilt normalization).  On an enabled, calibrated instance with
    baseline [(b0, g0)], a reading [(b, g)], absent values counting as 0, is
    normalized to [nx = clamp(-(g - g0) / 30, -1, 1)] and
    [ny = clamp(-(b - b0) / 30, -1, 1)], each operation being the one of the
    program.  Both samples lie in [-1, 1] and both axes are inverted: a
    reading above the baseline gives a sample of at most 0, one below it a
    sample of at least 0.  The image displayed is the base path followed by
    the encoding of the grid cell that [quantize] gives for [(nx, ny)]; the
    baseline and the two flags stay as they were. *)
Theorem tilt_normalization (t : Tracker) (b g : option Q) (b0 g0 : Q) :
  useOrientation t = true ->
  hasCalibrated t = true ->
  baseOrientation t = {| beta := Fin b0; gamma := Fin g0 |} ->
  let e := reading b g in
  let nx := tilt_sample (value_or_zero g) g0 in
  let ny := tilt_sample (value_or_zero b) b0 in
  clamp (- (nullable_or_zero (e_gamma e) - gamma (baseOrientation t))
            / num_of_Z 30)%js (num_of_Z (-1)) (num_of_Z 1) = nx
  /\ clamp (- (nullable_or_zero (e_beta e) - beta (baseOrientation t))
               / num_of_Z 30)%js (num_of_Z (-1)) (num_of_Z 1) = ny
  /\ (exists qx qy : Q,
        nx = Fin qx /\ ny = Fin qy /\ -1 <= qx <= 1 /\ -1 <= qy <= 1)
  /\ (g0 <= value_or_zero g -> num_le nx (Fin 0))
  /\ (value_or_zero g <= g0 -> num_le (Fin 0) nx)
  /\ (b0 <= value_or_zero b -> num_le ny (Fin 0))
  /\ (value_or_zero b <= b0 -> num_le (Fin 0) ny)
  /\ (exists gx gy : Z,
        In gx grid /\ In gy grid
        /\ quantize nx ny = (num_of_Z gx, num_of_Z gy)
        /\ img_src (handleOrientation e t) = basePath t ++ encode gx gy 256)
  /\ baseOrientation (handleOrientation e t) = baseOrientation t
  /\ useOrientation (handleOrientation e t) = true
  /\ hasCalibrated (handleOrientation e t) = true.
Proof.
  intros Hu Hc Hbase e nx ny.
  destruct (nullable_or_zero_reading b) as [vb [Eb Hb]].
  destruct (nullable_or_zero_reading g) as [vg [Eg Hg]].
  change (e_beta e) with (option_map Fin b).
  change (e_gamma e) with (option_map Fin g).
  rewrite Hbase, Eb, Eg. cbn [beta gamma].
  assert (Nx : tilt_sample vg g0 = nx)
    by (apply tilt_sample_comp; [ exact Hg | reflexivity ]).
  assert (Ny : tilt_sample vb b0 = ny)
    by (apply tilt_sample_comp; [ exact Hb | reflexivity ]).
  split; [ exact Nx | ]. split; [ exact Ny | ].
  split.
  { destruct (tilt_sample_bounds (value_or_zero g) g0) as [qx [Ex Bx]].
    destruct (tilt_sample_bounds (value_or_zero b) b0) as [qy [Ey By]].
    exists qx, qy. now repeat split. }
  split.
  { intros H. rewrite <- (tilt_sample_same g0). now apply tilt_sample_antitone. }
  split.
  { intros H. rewrite <- (tilt_sample_same g0). now apply tilt_sample_antitone. }
  split.
  { intros H. rewrite <- (tilt_sample_same b0). now apply tilt_sample_antitone. }
  split.
  { intros H. rewrite <- (tilt_sample_same b0). now apply tilt_sample_antitone. }
  split.
  { destruct (quantizeToGrid_image nx) as [[N _] | [gx [Hgx Ex]]].
    { destruct (tilt_sample_bounds (value_or_zero g) g0) as [q [E _]].
      unfold nx in N. congruence. }
    destruct (quantizeToGrid_image ny) as [[N _] | [gy [Hgy Ey]]].
    { destruct (tilt_sample_bounds (value_or_zero b) b0) as [q [E _]].
      unfold ny in N. congruence. }
    exists gx, gy. split; [ exact Hgx | ]. split; [ exact Hgy | ].
    split; [ unfold quantize; now rewrite Ex, Ey | ].
    rewrite (handleOrientation_shows t e vb vg b0 g0 Hu Eb Eg)
      by (now rewrite Hc).
    rewrite Nx, Ny, Ex, Ey. now rewrite gridToFilename_grid. }
  unfold handleOrientation. rewrite Hu, Hc. simpl. now rewrite Hbase.
Qed.

Lemma tilt_normalization_witness :
  let t := handleOrientation (reading (Some (40 # 1)) (Some (5 # 1)))
             (enableOrientation demo_tracker) in
  useOrientation t = true
  /\ hasCalibrated t = true
  /\ img_src (handleOrientation (reading (Some (52 # 1)) None) t)
     = "/faces/gaze_px3p0_pym6p0_256.webp".
Proof.
  intros t.
  split; [ reflexivity | ]. split; [ reflexivity | ].
  destruct (tilt_normalization t (Some (52 # 1)) None (40 # 1) (5 # 1)
              eq_refl eq_refl eq_refl)
    as [_ [_ [_ [_ [_ [_ [_ [[gx [gy [_ [_ [Q Himg]]]]] _]]]]]]]].
  vm_compute in Q. injection Q as <- <-.
  rewrite Himg. vm_compute. reflexivity.
Defined.

(** C10 (orientation events while the mode is off).  With orientation mode
    off, a device-orientation event leaves the whole instance as it was: the
    baseline, the calibrated flag, the mode flag, the image and the debug
    overlay. *)
Theorem orientation_ignored_when_disabled (t : Tracker) (e : OrientationEvent) :
  useOrientation t = false ->
  handleOrientation e t = t
  /\ step t (DeviceOrientation e) = t
  /\ baseOrientation (handleOrientation e t) = baseOrientation t
  /\ hasCalibrated (handleOrientation e t) = hasCalibrated t
  /\ useOrientation (handleOrientation e t) = false
  /\ img_src (handleOrientation e t) = img_src t
  /\ debugEl (handleOrientation e t) = debugEl t.
Proof.
  intros Hu.
  assert (E : handleOrientation e t = t)
    by (unfold handleOrientation; now rewrite Hu).
  simpl. rewrite E. repeat split. exact Hu.
Qed.

Lemma orientation_ignored_when_disabled_witness :
  useOrientation demo_tracker = false
  /\ handleOrientation (reading (Some (30 # 1)) (Some (10 # 1))) demo_tracker
     = demo_tracker.
Proof.
  split; [ reflexivity | ].
  exact (proj1 (orientation_ignored_when_disabled demo_tracker
                  (reading (Some (30 # 1)) (Some (10 # 1))) eq_refl)).
Defined.

Open Scope Q_scope.

(* ------------------------------------------------------------------ *)
(** ** More on the quantizer *)

Lemma num_of_Z_inj (a b : Z) : num_of_Z a = num_of_Z b -> a = b.
Proof.
  unfold num_of_Z, inject_Z. intros H. now injection H.
Qed.

Ltac each_cell H :=
  match type of H with
  | (-5 <= ?k <= 5)%Z =>
      assert (k = -5 \/ k = -4 \/ k = -3 \/ k = -2 \/ k = -1 \/ k = 0
              \/ k = 1 \/ k = 2 \/ k = 3 \/ k = 4 \/ k = 5)%Z
        as [-> | [-> | [-> | [-> | [-> | [-> | [-> | [-> | [-> | [-> | ->]]]]]]]]]]
        by lia
  end.

(** Both ends of a cell, a margin away from its borders, get the value of
    the cell. *)
Lemma cell_ends (k : Z) :
  (-5 <= k <= 5)%Z ->
  quantizeToGrid (Fin (cell_low k)) = num_of_Z (3 * k)
  /\ quantizeToGrid (Fin (cell_high k)) = num_of_Z (3 * k).
Proof.
  intros H. each_cell H; split; vm_compute; reflexivity.
Qed.

Lemma cell_inside (v : Q) (k : Z) :
  (-5 <= k <= 5)%Z ->
  cell_low k <= v <= cell_high k ->
  quantizeToGrid (Fin v) = num_of_Z (3 * k).
Proof.
  intros Hk Hv. destruct (cell_ends k Hk) as [A B].
  exact (quantize_squeeze _ _ v _ Hv A B).
Qed.

Lemma cell_top (v : Q) : cell_low 5 <= v -> quantizeToGrid (Fin v) = num_of_Z 15.
Proof.
  intros H. apply (quantize_above (cell_low 5)); [ exact H | ].
  vm_compute. reflexivity.
Qed.

Lemma cell_bottom (v : Q) :
  v <= cell_high (-5) -> quantizeToGrid (Fin v) = num_of_Z (-15).
Proof.
  intros H. apply (quantize_below (cell_high (-5))); [ exact H | ].
  vm_compute. reflexivity.
Qed.

(** The value of the quantizer, read as an integer, is monotone. *)
Lemma quantizeToGrid_le (v w : Q) (a b : Z) :
  v <= w ->
  quantizeToGrid (Fin v) = num_of_Z a ->
  quantizeToGrid (Fin w) = num_of_Z b ->
  (a <= b)%Z.
Proof.
  intros H A B. apply num_le_Z. rewrite <- A, <- B.
  apply quantizeToGrid_mono. now apply num_le_Fin.
Qed.

(** X1.  With finite bounds [lo <= hi], [clamp] sends a finite value into
    [lo, hi]: a value inside is kept, one below gives [lo], one above gives
    [hi]; the infinities give the nearer bound, and [NaN] stays [NaN]. *)
Theorem clamp_within_bounds (v lo hi : Q) :
  lo <= hi ->
  (exists q : Q,
     clamp (Fin v) (Fin lo) (Fin hi) = Fin q
     /\ lo <= q <= hi
     /\ (lo <= v <= hi -> q == v)
     /\ (v <= lo -> q == lo)
     /\ (hi <= v -> q == hi))
  /\ clamp PosInf (Fin lo) (Fin hi) = Fin hi
  /\ clamp NegInf (Fin lo) (Fin hi) = Fin lo
  /\ clamp NaN (Fin lo) (Fin hi) = NaN.
Proof.
  intros Hlh. split.
  - destruct (clamp_Fin v lo hi Hlh) as [q [E Hq]].
    exists q. split; [ exact E | ].
    destruct (clampQ_cases v lo hi Hlh) as [[H C] | [[H C] | [H C]]];
      rewrite C in Hq; repeat split; intros; lra.
  - unfold clamp, Math_max, Math_min, leb.
    apply Qle_bool_iff in Hlh. rewrite Hlh. repeat split.
Qed.

Lemma clamp_within_bounds_witness :
  exists q : Q,
    clamp (Fin (7 # 2)) (Fin (-1)) (Fin 1) = Fin q /\ q == 1.
Proof.
  assert (H : -1 <= 1) by (unfold Qle; simpl; lia).
  destruct (clamp_within_bounds (7 # 2) (-1) 1 H) as [[q [E [_ [_ [_ Hhi]]]]] _].
  exists q. split; [ exact E | ].
  apply Hhi. unfold Qle; simpl; lia.
Defined.

(** X2.  The quantizer is monotone: a larger finite input never gives a
    smaller grid value. *)
Theorem quantizeToGrid_monotone (v w : Q) :
  v <= w ->
  exists a b : Z,
    quantizeToGrid (Fin v) = num_of_Z a
    /\ quantizeToGrid (Fin w) = num_of_Z b
    /\ (a <= b)%Z.
Proof.
  intros H.
  destruct (quantizeToGrid_Fin_image v) as [a [_ A]].
  destruct (quantizeToGrid_Fin_image w) as [b [_ B]].
  exists a, b. split; [ exact A | ]. split; [ exact B | ].
  exact (quantizeToGrid_le v w a b H A B).
Qed.

Lemma quantizeToGrid_monotone_witness :
  exists a b : Z,
    quantizeToGrid (Fin (1 # 10)) = num_of_Z a
    /\ quantizeToGrid (Fin (1 # 2)) = num_of_Z b
    /\ (a <= b)%Z.
Proof.
  apply (quantizeToGrid_monotone (1 # 10) (1 # 2)).
  unfold Qle; simpl; lia.
Defined.

(** X3.  The cells of the quantizer.  Cell [k], for [k] from -5 to 5, is
    the interval around [k / 5] between the borders [(2k - 1) / 10] and
    [(2k + 1) / 10].  A finite input that is at least [margin] = 2^-52 away
    from both borders of cell [k] gets the grid value [3 * k]; everything
    from [9/10 + margin] on gets 15, everything up to [-9/10 - margin] gets
    -15.  Within the margin the rounding of the arithmetic decides: the
    binary64 number nearest to 3/10, which is below the border 3/10, gets 6,
    the value of the cell above. *)
Theorem quantizeToGrid_cells (v : Q) (k : Z) :
  (-5 <= k <= 5)%Z ->
  (cell_low k <= v <= cell_high k -> quantizeToGrid (Fin v) = num_of_Z (3 * k))
  /\ (cell_low 5 <= v -> quantizeToGrid (Fin v) = num_of_Z 15)
  /\ (v <= cell_high (-5) -> quantizeToGrid (Fin v) = num_of_Z (-15))
  /\ (double_0_3 < 3 # 10
      /\ quantizeToGrid (Fin double_0_3) = num_of_Z 6).
Proof.
  intros Hk.
  split; [ now apply cell_inside | ].
  split; [ apply cell_top | ].
  split; [ apply cell_bottom | ].
  split; [ reflexivity | vm_compute; reflexivity ].
Qed.

Lemma quantizeToGrid_cells_witness :
  quantizeToGrid (Fin (1 # 4)) = num_of_Z 3.
Proof.
  assert (Hk : (-5 <= 1 <= 5)%Z) by lia.
  destruct (quantizeToGrid_cells (1 # 4) 1 Hk) as [H _].
  apply H. split; unfold Qle; simpl; lia.
Defined.

Lemma cell_low_eq (k : Z) :
  cell_low k == (2 * inject_Z k - 1) * (1 # 10) + (1 # 4503599627370496).
Proof. unfold cell_low, margin. field. Qed.

Lemma cell_high_eq (k : Z) :
  cell_high k == (2 * inject_Z k + 1) * (1 # 10) - (1 # 4503599627370496).
Proof. unfold cell_high, margin. field. Qed.

Lemma cell_high_pred (k : Z) :
  cell_high (k - 1) == (2 * inject_Z k - 1) * (1 # 10) - (1 # 4503599627370496).
Proof.
  unfold cell_high, margin, Z.sub.
  rewrite inject_Z_plus, inject_Z_opp. change (inject_Z 1) with 1. field.
Qed.

Lemma cell_low_succ (k : Z) :
  cell_low (k + 1) == (2 * inject_Z k + 1) * (1 # 10) + (1 # 4503599627370496).
Proof.
  unfold cell_low, margin.
  rewrite inject_Z_plus. change (inject_Z 1) with 1. field.
Qed.

Lemma triple_pred (k : Z) : inject_Z (3 * (k - 1)) == 3 * inject_Z k - 3.
Proof.
  unfold Z.sub. rewrite inject_Z_mult, inject_Z_plus, inject_Z_opp.
  change (inject_Z 3) with 3. change (inject_Z 1) with 1. ring.
Qed.

Lemma triple_succ (k : Z) : inject_Z (3 * (k + 1)) == 3 * inject_Z k + 3.
Proof.
  rewrite inject_Z_mult, inject_Z_plus.
  change (inject_Z 3) with 3. change (inject_Z 1) with 1. ring.
Qed.

Lemma triple (k : Z) : inject_Z (3 * k) == 3 * inject_Z k.
Proof. rewrite inject_Z_mult. reflexivity. Qed.

(** The grid value is within half a step, and fifteen margins, of fifteen
    times the input. *)
Lemma quantize_close (v : Q) (g : Z) :
  -1 <= v <= 1 ->
  quantizeToGrid (Fin v) = num_of_Z g ->
  Qabs (inject_Z g - 15 * v) <= (3 # 2) + 15 * margin.
Proof.
  intros Hv G.
  remember (round_half_up (5 * v)) as k eqn:Ek.
  destruct (floor_bounds (5 * v + (1 # 2))) as [F1 F2].
  unfold round_half_up in Ek. rewrite <- Ek in F1, F2.
  assert (Hk : (-5 <= k <= 5)%Z).
  { split.
    - assert (L' : inject_Z (-5) < inject_Z (k + 1)).
      { rewrite inject_Z_plus. change (inject_Z 1) with 1.
        change (inject_Z (-5)) with (-5). lra. }
      rewrite <- Zlt_Qlt in L'. lia.
    - assert (L : inject_Z k < inject_Z 6).
      { change (inject_Z 6) with 6. lra. }
      rewrite <- Zlt_Qlt in L. lia. }
  assert (Lk := cell_low_eq k). assert (Uk := cell_high_eq k).
  apply Qabs_Qle_condition. unfold margin.
  destruct (Qlt_le_dec v (cell_low k)) as [Lo | Lo].
  - (* within the margin of the lower border *)
    assert (Hk' : (-5 <= k - 1 <= 5)%Z).
    { assert (k <> -5)%Z; [ intros -> | lia ].
      rewrite Lk in Lo. change (inject_Z (-5)) with (-5) in Lo. lra. }
    assert (U1 := cell_high_pred k).
    destruct (cell_ends k Hk) as [A _].
    destruct (cell_ends (k - 1) Hk') as [_ B].
    assert (G1 : (3 * (k - 1) <= g)%Z).
    { apply (quantizeToGrid_le (cell_high (k - 1)) v); try assumption. lra. }
    assert (G2 : (g <= 3 * k)%Z).
    { apply (quantizeToGrid_le v (cell_low k)); try assumption. lra. }
    rewrite Zle_Qle in G1, G2.
    rewrite triple_pred in G1. rewrite triple in G2.
    split; lra.
  - destruct (Qlt_le_dec (cell_high k) v) as [Hi | Hi].
    + (* within the margin of the upper border *)
      assert (Hk' : (-5 <= k + 1 <= 5)%Z).
      { assert (k <> 5)%Z; [ intros -> | lia ].
        rewrite Uk in Hi. change (inject_Z 5) with 5 in Hi. lra. }
      assert (L1 := cell_low_succ k).
      destruct (cell_ends k Hk) as [_ A].
      destruct (cell_ends (k + 1) Hk') as [B _].
      assert (G1 : (3 * k <= g)%Z).
      { apply (quantizeToGrid_le (cell_high k) v); try assumption. lra. }
      assert (G2 : (g <= 3 * (k + 1))%Z).
      { apply (quantizeToGrid_le v (cell_low (k + 1))); try assumption. lra. }
      rewrite Zle_Qle in G1, G2.
      rewrite triple in G1. rewrite triple_succ in G2.
      split; lra.
    + rewrite (cell_inside v k Hk (conj Lo Hi)) in G.
      apply num_of_Z_inj in G. subst g.
      rewrite triple.
      split; lra.
Qed.

(** X4.  The error of the quantizer.  For an input [v] in [-1, 1] the grid
    value returned is within [3/2 + 15 * margin] of [15 * v], the point of
    the range [-15, 15] that [v] maps to: half a step, and what the rounding
    of the arithmetic adds next to a border.  Half a step alone is not a
    bound: the binary64 number just below 1/2 gets 9, which is more than
    3/2 away from its image. *)
Theorem quantizeToGrid_error (v : Q) :
  -1 <= v <= 1 ->
  (exists g : Z,
     In g grid
     /\ quantizeToGrid (Fin v) = num_of_Z g
     /\ Qabs (inject_Z g - 15 * v) <= (3 # 2) + 15 * margin)
  /\ (quantizeToGrid (Fin below_half) = num_of_Z 9
      /\ 3 # 2 < Qabs (inject_Z 9 - 15 * below_half)).
Proof.
  intros Hv. split.
  - destruct (quantizeToGrid_Fin_image v) as [g [Hg G]].
    exists g. split; [ exact Hg | ]. split; [ exact G | ].
    now apply quantize_close.
  - split; [ vm_compute; reflexivity | reflexivity ].
Qed.

Lemma quantizeToGrid_error_witness :
  exists g : Z,
    In g grid
    /\ quantizeToGrid (Fin (1 # 3)) = num_of_Z g
    /\ Qabs (inject_Z g - 15 * (1 # 3)) <= (3 # 2) + 15 * margin.
Proof.
  apply (quantizeToGrid_error (1 # 3)).
  split; unfold Qle; simpl; lia.
Defined.

(** X5.  The quantizer returns [NaN] exactly when it is given [NaN]; the
    two infinities give the two ends of the grid. *)
Theorem quantizeToGrid_NaN_iff (a : number) :
  (quantizeToGrid a = NaN <-> a = NaN)
  /\ quantizeToGrid PosInf = P_MAX
  /\ quantizeToGrid NegInf = P_MIN.
Proof.
  split; [ | split; reflexivity ].
  split.
  - destruct (quantizeToGrid_image a) as [[H _] | [g [_ H]]]; [ easy | ].
    rewrite H. discriminate.
  - now intros ->.
Qed.

Open Scope Q_scope.

(* ------------------------------------------------------------------ *)
(** ** More on number formatting *)

Open Scope string_scope.

Lemma string_of_uint_digits (d : Decimal.uint) :
  all_digits (NilEmpty.string_of_uint d) = true.
Proof. induction d; simpl; auto. Qed.

Lemma digits_all_digits (n : N) : all_digits (digits n) = true.
Proof.
  unfold digits, NilZero.string_of_uint.
  destruct (N.to_uint n); try reflexivity; apply string_of_uint_digits.
Qed.

Lemma append_assoc (a b c : string) : (a ++ b) ++ c = a ++ b ++ c.
Proof. induction a; simpl; [ reflexivity | now rewrite IHa ]. Qed.

Lemma append_length (a b : string) : length (a ++ b) = (length a + length b)%nat.
Proof. induction a; simpl; [ reflexivity | now rewrite IHa ]. Qed.

Lemma string_of_uint_revapp (l d : Decimal.uint) :
  NilEmpty.string_of_uint (Decimal.revapp l d)
  = NilEmpty.string_of_uint (Decimal.rev l) ++ NilEmpty.string_of_uint d.
Proof.
  revert d. unfold Decimal.rev.
  induction l; intros d; simpl; try reflexivity;
    rewrite IHl; symmetry; rewrite IHl; rewrite append_assoc; reflexivity.
Qed.

Lemma digits_tenfold (p : positive) :
  digits (10 * N.pos p) = digits (N.pos p) ++ "0".
Proof.
  unfold digits.
  change (10 * N.pos p)%N with (N.pos (10 * p)).
  unfold N.to_uint, Pos.to_uint.
  assert (H := DecimalPos.Unsigned.to_ldec_tenfold p).
  unfold DecimalPos.Unsigned.to_lu in H.
  change (10 * N.pos p)%N with (N.pos (10 * p)) in H. rewrite H.
  unfold Decimal.rev at 1. simpl Decimal.revapp.
  assert (N1 : forall d, d <> Decimal.Nil -> NilZero.string_of_uint d = NilEmpty.string_of_uint d)
    by (intros d Hd; destruct d; try reflexivity; contradiction).
  rewrite !N1.
  - now rewrite string_of_uint_revapp.
  - apply (DecimalPos.Unsigned.to_uint_nonnil p).
  - intro E. assert (L := f_equal NilEmpty.string_of_uint E).
    rewrite string_of_uint_revapp in L. apply (f_equal length) in L.
    rewrite append_length in L. simpl in L. lia.
Qed.

Lemma substring_prefix (a b : string) : substring 0 (length a) (a ++ b) = a.
Proof. apply prefix_correct. induction a; simpl.
  - now destruct b.
  - destruct (ascii_dec a a); [ assumption | contradiction ].
Qed.

Lemma substring_suffix (a b : string) : substring (length a) (length b) (a ++ b) = b.
Proof.
  induction a; simpl; [ | assumption ].
  induction b; simpl; [ reflexivity | now rewrite IHb ].
Qed.

Lemma digits_length_pos (n : N) : (1 <= length (digits n))%nat.
Proof.
  unfold digits, NilZero.string_of_uint.
  destruct n as [ | p]; [ simpl; lia | ].
  simpl N.to_uint. destruct (Pos.to_uint p); simpl; lia.
Qed.

Lemma Qfloor_tenfold (n : Z) : Qfloor (inject_Z n * 10 + (1 # 2)) = (10 * n)%Z.
Proof.
  unfold Qfloor, inject_Z, Qmult, Qplus. simpl Qnum. simpl Qden.
  change (Z.pos (1 * 1 * 2)) with 2%Z.
  replace (n * 10 * 2 + 1 * 1)%Z with (1 + (10 * n) * 2)%Z by lia.
  rewrite Z.div_add by lia. reflexivity.
Qed.

Lemma toFixed1_int (k : Z) : toFixed1 (num_of_Z k) = fixed1 k.
Proof.
  unfold toFixed1, num_of_Z, fixed1.
  assert (S : Qltb (inject_Z k) 0 = (k <? 0)%Z).
  { unfold Qltb. change 0%Q with (inject_Z 0). rewrite Qle_bool_inject.
    destruct (Z.ltb_spec k 0), (Z.leb_spec 0 k); try reflexivity; lia. }
  rewrite S.
  assert (A : (if (k <? 0)%Z then (- inject_Z k)%Q else inject_Z k) = inject_Z (Z.abs k)).
  { destruct (Z.ltb_spec k 0).
    - rewrite Z.abs_neq by lia. reflexivity.
    - rewrite Z.abs_eq by lia. reflexivity. }
  rewrite A, Qfloor_tenfold.
  f_equal.
  destruct (Z.abs_N k) as [ | p] eqn:E.
  - assert (k = 0%Z) by lia. subst. reflexivity.
  - assert (E2 : Z.to_N (10 * Z.abs k) = (10 * N.pos p)%N) by lia.
    rewrite E2, digits_tenfold.
    assert (L := digits_length_pos (N.pos p)).
    rewrite append_length. simpl length.
    destruct (Nat.leb_spec (length (digits (N.pos p)) + 1) 1); [ lia | ].
    replace (length (digits (N.pos p)) + 1 - 1)%nat with (length (digits (N.pos p))) by lia.
    rewrite !append_length. simpl length.
    replace (length (digits (N.pos p)) + 1 - 1)%nat with (length (digits (N.pos p))) by lia.
    rewrite substring_prefix.
    assert (Sf := substring_suffix (digits (N.pos p)) "0").
    change (length "0") with 1%nat in Sf. rewrite Sf. reflexivity.
Qed.

Lemma contains_app (c : ascii) (a b : string) :
  contains c (a ++ b) = contains c a || contains c b.
Proof. induction a; simpl; [ reflexivity | now rewrite IHa, orb_assoc ]. Qed.

Lemma contains_digits (c : ascii) (s : string) :
  is_digit c = false -> all_digits s = true -> contains c s = false.
Proof.
  intros Hc. induction s as [ | a r IH]; simpl; [ reflexivity | ].
  intros H. apply andb_prop in H. destruct H as [Ha Hr].
  rewrite (IH Hr), orb_false_r.
  destruct (Ascii.eqb_spec a c); [ subst; congruence | reflexivity ].
Qed.

Lemma replace_absent (c d : ascii) (s : string) :
  contains c s = false -> replace c d s = s.
Proof.
  induction s as [ | a r IH]; simpl; [ reflexivity | ].
  intros H. apply orb_false_elim in H. destruct H as [Ha Hr].
  now rewrite Ha, (IH Hr).
Qed.

Lemma replace_first (c d : ascii) (a r : string) :
  contains c a = false -> replace c d (a ++ String c r) = a ++ String d r.
Proof.
  induction a as [ | x a IH]; simpl.
  - now rewrite Ascii.eqb_refl.
  - intros H. apply orb_false_elim in H. destruct H as [Hx Ha].
    now rewrite Hx, (IH Ha).
Qed.

Lemma all_digits_app (a b : string) :
  all_digits (a ++ b) = all_digits a && all_digits b.
Proof. induction a; simpl; [ reflexivity | now rewrite IHa, andb_assoc ]. Qed.

Lemma all_digits_substring (s : string) : forall n m : nat,
  all_digits s = true -> all_digits (substring n m s) = true.
Proof.
  induction s as [ | a r IH]; intros n m H; simpl.
  - now destruct n, m.
  - simpl in H. apply andb_prop in H. destruct H as [Ha Hr].
    destruct n as [ | n]; [ destruct m as [ | m]; simpl | ].
    + reflexivity.
    + now rewrite Ha, (IH 0%nat m Hr).
    + now apply IH.
Qed.

(** The encoding of a sign, an integer part and a fraction part. *)
Lemma sanitize_shape (negative : bool) (A B : string) :
  all_digits A = true -> all_digits B = true ->
  replace "." "p" (replace "-" "m" ((if negative then "-" else "") ++ A ++ "." ++ B))
  = (if negative then "m" else "") ++ A ++ "p" ++ B.
Proof.
  intros HA HB.
  assert (D1 : contains "-" A = false) by now apply contains_digits.
  assert (D2 : contains "-" B = false) by now apply contains_digits.
  assert (P1 : contains "." A = false) by now apply contains_digits.
  destruct negative; simpl.
  - f_equal. apply (replace_first "." "p" A B P1).
  - rewrite (replace_absent "-" "m").
    + apply (replace_first "." "p" A B P1).
    + rewrite contains_app. simpl. now rewrite D1, D2.
Qed.

Lemma toFixed1_shape (x : Q) :
  exists A B : string,
    all_digits A = true /\ all_digits B = true
    /\ toFixed1 (Fin x) = (if Qltb x 0 then "-" else "") ++ A ++ "." ++ B.
Proof.
  unfold toFixed1.
  set (m0 := digits _).
  set (m := if (length m0 <=? 1)%nat then "0" ++ m0 else m0).
  assert (Hm : all_digits m = true).
  { unfold m. destruct (length m0 <=? 1)%nat; simpl; apply digits_all_digits. }
  exists (substring 0 (length m - 1) m), (substring (length m - 1) 1 m).
  repeat split; try now apply all_digits_substring.
Qed.

Lemma sanitize_Fin (x : Q) :
  exists A B : string,
    all_digits A = true /\ all_digits B = true
    /\ sanitize (Fin x) = (if Qltb x 0 then "m" else "") ++ A ++ "p" ++ B.
Proof.
  destruct (toFixed1_shape x) as [A [B [HA [HB E]]]].
  exists A, B. repeat split; try assumption.
  unfold sanitize. rewrite E. now apply sanitize_shape.
Qed.

(** X7.  [sanitize] never leaves a minus sign or a point in its result: for
    [NaN], the infinities and every finite number in the range of fixed
    notation, the result contains neither [-] nor [.]. *)
Theorem sanitize_no_minus_no_point (a : number) :
  (forall x : Q, a = Fin x -> Qabs x < inject_Z (10 ^ 21)) ->
  contains "-" (sanitize a) = false /\ contains "." (sanitize a) = false.
Proof.
  intros _. destruct a as [ | | | x]; try (split; reflexivity).
  destruct (sanitize_Fin x) as [A [B [HA [HB E]]]]. rewrite E.
  rewrite !contains_app.
  rewrite !(contains_digits _ A), !(contains_digits _ B) by (assumption || reflexivity).
  destruct (Qltb x 0); split; reflexivity.
Qed.

Lemma sanitize_no_minus_no_point_witness :
  contains "-" (sanitize (Fin (- (7 # 2)))) = false
  /\ contains "." (sanitize (Fin (- (7 # 2)))) = false.
Proof.
  apply (sanitize_no_minus_no_point (Fin (- (7 # 2)))).
  intros x E. injection E as <-. reflexivity.
Defined.

Lemma sanitize_int (k : Z) : sanitize (num_of_Z k) = encode_coord k.
Proof.
  unfold sanitize. rewrite toFixed1_int. unfold fixed1, encode_coord.
  change ".0" with ("." ++ "0").
  change "p0" with ("p" ++ "0").
  apply (sanitize_shape (k <? 0)%Z (digits (Z.abs_N k)) "0").
  - apply digits_all_digits.
  - reflexivity.
Qed.

(** X6.  Every integer in the range of fixed notation, not only a grid
    value, is printed by [toFixed(1)] as its sign, its decimal digits and
    [.0], and [sanitize] turns that into [m] for the sign, the digits and
    [p0]. *)
Theorem sanitize_integer (k : Z) :
  fixed_range k ->
  toFixed1 (num_of_Z k) = fixed1 k /\ sanitize (num_of_Z k) = encode_coord k.
Proof. intros _. split; [ apply toFixed1_int | apply sanitize_int ]. Qed.

Lemma sanitize_integer_witness :
  toFixed1 (num_of_Z (-1024)) = "-1024.0"
  /\ sanitize (num_of_Z (-1024)) = "m1024p0".
Proof.
  apply (sanitize_integer (-1024)). unfold fixed_range. reflexivity.
Defined.

Lemma N_to_uint_nonnil (n : N) : N.to_uint n <> Decimal.Nil.
Proof.
  destruct n; simpl; [ discriminate | apply DecimalPos.Unsigned.to_uint_nonnil ].
Qed.

Lemma digits_inj (n n' : N) : digits n = digits n' -> n = n'.
Proof.
  unfold digits. intros H.
  apply (f_equal NilZero.uint_of_string) in H.
  rewrite !NilZero.usu in H by apply N_to_uint_nonnil.
  injection H as H. now apply DecimalN.Unsigned.to_uint_inj.
Qed.

Lemma append_inj_l (a b c : string) : a ++ c = b ++ c -> a = b.
Proof.
  revert b. induction a as [ | x a IH]; intros [ | y b] H; simpl in H.
  - reflexivity.
  - apply (f_equal length) in H. simpl in H. rewrite append_length in H. lia.
  - apply (f_equal length) in H. simpl in H. rewrite append_length in H. lia.
  - injection H as -> H. f_equal. now apply IH.
Qed.

Lemma digits_first (n : N) : exists c r, digits n = String c r /\ is_digit c = true.
Proof.
  assert (H := digits_all_digits n). assert (L := digits_length_pos n).
  destruct (digits n) as [ | c r]; simpl in *; [ lia | ].
  apply andb_prop in H. exists c, r. tauto.
Qed.

Lemma encode_coord_inj (k k' : Z) : encode_coord k = encode_coord k' -> k = k'.
Proof.
  unfold encode_coord. intros H.
  destruct (digits_first (Z.abs_N k)) as [c [r [E D]]].
  destruct (digits_first (Z.abs_N k')) as [c' [r' [E' D']]].
  destruct (Z.ltb_spec k 0), (Z.ltb_spec k' 0); simpl in H.
  - injection H as H. apply append_inj_l, digits_inj in H. lia.
  - rewrite E' in H. simpl in H. injection H as <- _. discriminate D'.
  - rewrite E in H. simpl in H. injection H as -> _. discriminate D.
  - apply append_inj_l, digits_inj in H. lia.
Qed.

Lemma split_at_first (c : ascii) (a a' r r' : string) :
  contains c a = false -> contains c a' = false ->
  a ++ String c r = a' ++ String c r' -> a = a' /\ r = r'.
Proof.
  revert a'. induction a as [ | x a IH]; intros [ | y a'] Ha Ha' H; simpl in *.
  - injection H as ->. now split.
  - injection H as <- _. now rewrite Ascii.eqb_refl in Ha'.
  - injection H as -> _. now rewrite Ascii.eqb_refl in Ha.
  - injection H as -> H.
    apply orb_false_elim in Ha, Ha'.
    destruct (IH a' (proj2 Ha) (proj2 Ha') H) as [-> ->]. now split.
Qed.

Lemma encode_coord_no_underscore (k : Z) : contains "_" (encode_coord k) = false.
Proof.
  unfold encode_coord. rewrite !contains_app.
  rewrite (contains_digits "_" (digits _)) by (reflexivity || apply digits_all_digits).
  now destruct (k <? 0)%Z.
Qed.

(** X8.  The file name is injective on all integer coordinates in the range
    of fixed notation, on or off the grid: equal file names come from equal
    coordinate pairs. *)
Theorem gridToFilename_injective_integers (a b a' b' : Z) :
  fixed_range a -> fixed_range b -> fixed_range a' -> fixed_range b' ->
  gridToFilename (num_of_Z a) (num_of_Z b)
  = gridToFilename (num_of_Z a') (num_of_Z b') ->
  a = a' /\ b = b'.
Proof.
  intros _ _ _ _. unfold gridToFilename.
  rewrite !sanitize_int.
  intros H. simpl in H. injection H as H.
  change ("_py" ++ ?x) with (String "_" ("py" ++ x)) in H.
  apply split_at_first in H; try apply encode_coord_no_underscore.
  destruct H as [Ha H]. simpl in H. injection H as H.
  apply split_at_first in H; try apply encode_coord_no_underscore.
  split; apply encode_coord_inj; tauto.
Qed.

Lemma gridToFilename_injective_integers_witness :
  gridToFilename (num_of_Z 18) (num_of_Z (-21))
  = gridToFilename (num_of_Z 18) (num_of_Z (-21))
  /\ (18 = 18 /\ -21 = -21)%Z.
Proof.
  split; [ reflexivity | ].
  apply (gridToFilename_injective_integers 18 (-21) 18 (-21));
    unfold fixed_range; reflexivity.
Defined.

Open Scope Q_scope.

(* ------------------------------------------------------------------ *)
(** ** More on one instance *)

Open Scope Q_scope.

Lemma is_finite_Fin (a : number) : is_finite a = true -> exists q, a = Fin q.
Proof. destruct a; try discriminate. intros _. now eexists. Qed.

Lemma sub_not_NaN_l (x : Q) (a : number) : a <> NaN -> (Fin x - a)%js <> NaN.
Proof.
  destruct a; try discriminate; [ contradiction | ].
  intros _. apply round64_not_NaN.
Qed.

Lemma sub_not_NaN_r (x : Q) (a : number) : a <> NaN -> (a - Fin x)%js <> NaN.
Proof.
  destruct a; try discriminate; [ contradiction | ].
  intros _. apply round64_not_NaN.
Qed.

Lemma div_nonzero_not_NaN (a : number) (c : Q) :
  ~ c == 0 -> a <> NaN -> (a / Fin c)%js <> NaN.
Proof.
  intros Hc Ha.
  assert (E : Qeq_bool c 0 = false).
  { destruct (Qeq_bool c 0) eqn:E; [ | reflexivity ].
    apply Qeq_bool_iff in E. contradiction. }
  destruct a as [ | | | x]; [ contradiction | | | ]; cbn [div].
  - unfold signed_inf. destruct (Bool.eqb true (Qltb c 0)); discriminate.
  - unfold signed_inf. destruct (Bool.eqb false (Qltb c 0)); discriminate.
  - rewrite E. apply round64_not_NaN.
Qed.

Lemma half_of_Fin (w : Q) : (Fin w / num_of_Z 2)%js = round64 (w / 2).
Proof. reflexivity. Qed.

(** The image [setFromClient] shows is the one of the two quantized
    samples. *)
Lemma setFromClient_shows (rect : DOMRect) (x y : number) (t : Tracker) :
  img_src (setFromClient rect x y t)
  = (basePath t ++ gridToFilename (quantizeToGrid (pointer_sample_x rect x))
                                  (quantizeToGrid (pointer_sample_y rect y)))%string.
Proof. reflexivity. Qed.

Lemma pointer_sample_x_bounds (rect : DOMRect) (x : number) :
  usable_rect rect -> is_finite x = true ->
  exists q : Q, pointer_sample_x rect x = Fin q /\ -1 <= q <= 1.
Proof.
  intros [l [tp [w [h [hw [hh [-> [Hw [Nw [Hh Nh]]]]]]]]]] Hx.
  destruct (is_finite_Fin x Hx) as [qx ->].
  unfold pointer_sample_x, offset_x. rewrite Hw. cbn [left].
  apply clamp_unit_bounds.
  apply div_nonzero_not_NaN; [ exact Nw | ].
  apply sub_not_NaN_l. apply round64_not_NaN.
Qed.

Lemma pointer_sample_y_bounds (rect : DOMRect) (y : number) :
  usable_rect rect -> is_finite y = true ->
  exists q : Q, pointer_sample_y rect y = Fin q /\ -1 <= q <= 1.
Proof.
  intros [l [tp [w [h [hw [hh [-> [Hw [Nw [Hh Nh]]]]]]]]]] Hy.
  destruct (is_finite_Fin y Hy) as [qy ->].
  unfold pointer_sample_y, offset_y. rewrite Hh. cbn [top].
  apply clamp_unit_bounds.
  apply div_nonzero_not_NaN; [ exact Nh | ].
  apply sub_not_NaN_r. apply round64_not_NaN.
Qed.

Lemma setFromClient_grid (rect : DOMRect) (x y : number) (t : Tracker) :
  usable_rect rect -> is_finite x = true -> is_finite y = true ->
  exists (qx qy : Q) (gx gy : Z),
    pointer_sample_x rect x = Fin qx /\ -1 <= qx <= 1
    /\ pointer_sample_y rect y = Fin qy /\ -1 <= qy <= 1
    /\ In gx grid /\ In gy grid
    /\ quantize (Fin qx) (Fin qy) = (num_of_Z gx, num_of_Z gy)
    /\ img_src (setFromClient rect x y t)
       = (basePath t ++ encode gx gy SIZE)%string.
Proof.
  intros Hr Hx Hy.
  destruct (pointer_sample_x_bounds rect x Hr Hx) as [qx [Ex Bx]].
  destruct (pointer_sample_y_bounds rect y Hr Hy) as [qy [Ey By]].
  destruct (quantizeToGrid_Fin_image qx) as [gx [Hgx Gx]].
  destruct (quantizeToGrid_Fin_image qy) as [gy [Hgy Gy]].
  exists qx, qy, gx, gy.
  repeat (split; [ assumption | ]).
  split; [ unfold quantize; now rewrite Gx, Gy | ].
  rewrite setFromClient_shows, Ex, Ey, Gx, Gy.
  now rewrite gridToFilename_grid.
Qed.

Lemma sub_mono_Fin (c : number) (x x' : Q) :
  c <> NaN -> x <= x' -> num_le (Fin x - c)%js (Fin x' - c)%js.
Proof.
  intros Hc H. destruct c as [ | | | q]; [ contradiction | | | ].
  - reflexivity.
  - reflexivity.
  - apply sub_mono_l. now apply num_le_Fin.
Qed.

Lemma sub_antitone_Fin (c : number) (y y' : Q) :
  c <> NaN -> y <= y' -> num_le (c - Fin y')%js (c - Fin y)%js.
Proof.
  intros Hc H. destruct c as [ | | | q]; [ contradiction | | | ].
  - reflexivity.
  - reflexivity.
  - apply sub_antitone_r. now apply num_le_Fin.
Qed.

Lemma half_positive (w hw : Q) :
  0 <= w -> (Fin w / num_of_Z 2)%js = Fin hw -> ~ hw == 0 -> 0 < hw.
Proof.
  intros Hw E N. rewrite half_of_Fin in E.
  assert (L : num_le (round64 0) (round64 (w / 2))).
  { apply round64_le. unfold Qdiv. change (/ 2) with (1 # 2). lra. }
  rewrite E in L. change (round64 0) with (Fin 0) in L.
  apply num_le_Fin in L. lra.
Qed.

(** Further right never looks further left; further down never looks
    further up. *)
Lemma pointer_sample_x_mono (rect : DOMRect) (x x' : Q) :
  usable_rect rect -> upright_rect rect -> x <= x' ->
  num_le (pointer_sample_x rect (Fin x)) (pointer_sample_x rect (Fin x')).
Proof.
  intros [l [tp [w [h [hw [hh [-> [Hw [Nw [Hh Nh]]]]]]]]]] [Uw Uh] H.
  cbn [width] in Uw. apply num_le_Fin in Uw.
  unfold pointer_sample_x, offset_x, num_of_Z. rewrite Hw. cbn [left].
  apply clamp_mono. apply div_mono_r.
  - exact (half_positive w hw Uw Hw Nw).
  - apply sub_mono_Fin; [ apply round64_not_NaN | exact H ].
Qed.

Lemma pointer_sample_y_antitone (rect : DOMRect) (y y' : Q) :
  usable_rect rect -> upright_rect rect -> y <= y' ->
  num_le (pointer_sample_y rect (Fin y')) (pointer_sample_y rect (Fin y)).
Proof.
  intros [l [tp [w [h [hw [hh [-> [Hw [Nw [Hh Nh]]]]]]]]]] [Uw Uh] H.
  cbn [height] in Uh. apply num_le_Fin in Uh.
  unfold pointer_sample_y, offset_y, num_of_Z. rewrite Hh. cbn [top].
  apply clamp_mono. apply div_mono_r.
  - exact (half_positive h hh Uh Hh Nh).
  - apply sub_antitone_Fin; [ apply round64_not_NaN | exact H ].
Qed.

(** X9.  Pointer normalization.  For a usable rectangle and a finite pointer
    position, a mouse move computes the samples
    [nx = clamp((x - centerX) / (width / 2), -1, 1)] and
    [ny = clamp((centerY - y) / (height / 2), -1, 1)], each operation being
    the one of the program; both are finite and lie in [-1, 1], and the
    image shown is the asset of the grid cell that [quantize] gives for
    them.  The base path, the mode flag and the calibration are left alone.
    When the sizes of the rectangle are not negative, a pointer further to
    the right never gives a smaller [nx] and a pointer further down never
    gives a larger [ny]. *)
Theorem pointer_normalization (rect : DOMRect) (x y : Q) (t : Tracker) :
  usable_rect rect ->
  let t' := handleMouseMove rect (Fin x) (Fin y) t in
  (exists (qx qy : Q) (gx gy : Z),
     pointer_sample_x rect (Fin x) = Fin qx /\ -1 <= qx <= 1
     /\ pointer_sample_y rect (Fin y) = Fin qy /\ -1 <= qy <= 1
     /\ In gx grid /\ In gy grid
     /\ quantize (Fin qx) (Fin qy) = (num_of_Z gx, num_of_Z gy)
     /\ img_src t' = (basePath t ++ encode gx gy 256)%string)
  /\ shows_grid_asset t'
  /\ basePath t' = basePath t
  /\ useOrientation t' = useOrientation t
  /\ hasCalibrated t' = hasCalibrated t
  /\ baseOrientation t' = baseOrientation t
  /\ (upright_rect rect ->
      (forall x' : Q, x <= x' ->
         num_le (pointer_sample_x rect (Fin x)) (pointer_sample_x rect (Fin x')))
      /\ (forall y' : Q, y <= y' ->
            num_le (pointer_sample_y rect (Fin y')) (pointer_sample_y rect (Fin y)))).
Proof.
  intros H t'. unfold t', handleMouseMove.
  destruct (setFromClient_grid rect (Fin x) (Fin y) t H eq_refl eq_refl)
    as [qx [qy [gx [gy [Ex [Bx [Ey [By [Hgx [Hgy [Q E]]]]]]]]]]].
  split; [ exists qx, qy, gx, gy; now repeat (split; [ assumption | ]) | ].
  split; [ exists gx, gy; now repeat (split; [ assumption | ]) | ].
  repeat (split; [ reflexivity | ]).
  intros U. split; intros z Hz.
  - now apply pointer_sample_x_mono.
  - now apply pointer_sample_y_antitone.
Qed.

Lemma demo_rect_usable : usable_rect demo_rect.
Proof.
  exists 0, 0, (200 # 1), (100 # 1), (100 # 1), (50 # 1).
  split; [ reflexivity | ].
  split; [ vm_compute; reflexivity | ].
  split; [ discriminate | ].
  split; [ vm_compute; reflexivity | discriminate ].
Qed.

Lemma pointer_normalization_witness :
  img_src (handleMouseMove demo_rect (Fin (150 # 1)) (Fin (10 # 1)) demo_tracker)
  = "/faces/gaze_px9p0_py12p0_256.webp"%string.
Proof.
  destruct (pointer_normalization demo_rect (150 # 1) (10 # 1) demo_tracker
              demo_rect_usable)
    as [[qx [qy [gx [gy [Ex [_ [Ey [_ [_ [_ [Q E]]]]]]]]]]] _].
  vm_compute in Ex. injection Ex as <-.
  vm_compute in Ey. injection Ey as <-.
  vm_compute in Q. injection Q as <- <-.
  rewrite E. vm_compute. reflexivity.
Defined.

Lemma quotient_of_zero (hw : Q) : ~ hw == 0 -> (Fin 0 / Fin hw)%js = Fin 0.
Proof.
  intros N. cbn [div].
  destruct (Qeq_bool hw 0) eqn:E; [ apply Qeq_bool_iff in E; contradiction | ].
  apply round64_zero. field. exact N.
Qed.

(** A pointer on the center of the rectangle, as the program computes it,
    has both samples 0. *)
Lemma centered_sample (c hw : Q) :
  ~ hw == 0 ->
  clamp ((Fin c - Fin c) / Fin hw)%js (num_of_Z (-1)) (num_of_Z 1) = Fin 0.
Proof.
  intros N. cbn [sub]. rewrite (round64_zero (c - c)) by ring.
  rewrite (quotient_of_zero hw N). vm_compute. reflexivity.
Qed.

Lemma initializeFaceTracker_center (c : Container) (rect : DOMRect) :
  usable_rect rect -> finite_center rect ->
  img_src (initializeFaceTracker c rect)
  = (basePath (initializeFaceTracker c rect) ++ center_asset)%string.
Proof.
  intros [l [tp [w [h [hw [hh [-> [Hw [Nw [Hh Nh]]]]]]]]]] [Fx Fy].
  destruct (is_finite_Fin _ Fx) as [cx Cx].
  destruct (is_finite_Fin _ Fy) as [cy Cy].
  unfold initializeFaceTracker. rewrite setFromClient_shows.
  unfold pointer_sample_x, pointer_sample_y, offset_x, offset_y.
  unfold half_width, half_height in *. cbn [left top width height] in *.
  rewrite Cx, Cy, Hw, Hh.
  rewrite (centered_sample cx hw Nw), (centered_sample cy hh Nh).
  reflexivity.
Qed.

(** X10.  A new instance on a container with a usable rectangle whose center
    the program computes as finite shows the center asset, has orientation
    mode off and is uncalibrated with baseline (0, 0).  Its base path is
    [/faces/] when [data-base-path] is absent or empty and the attribute
    otherwise; it has a debug overlay exactly when [data-debug] is
    [true]. *)
Theorem initial_state (c : Container) (rect : DOMRect) :
  usable_rect rect ->
  finite_center rect ->
  let t := initializeFaceTracker c rect in
  img_src t = (basePath t ++ center_asset)%string
  /\ useOrientation t = false
  /\ hasCalibrated t = false
  /\ baseOrientation t = {| beta := Fin 0; gamma := Fin 0 |}
  /\ (dataset_basePath c = None \/ dataset_basePath c = Some ""%string ->
      basePath t = "/faces/"%string)
  /\ (forall p, dataset_basePath c = Some p -> p <> ""%string -> basePath t = p)
  /\ (debugEl t <> None <-> dataset_debug c = Some "true"%string).
Proof.
  intros H F t.
  split; [ exact (initializeFaceTracker_center c rect H F) | ].
  repeat (split; [ reflexivity | ]).
  split; [ | split ].
  - intros [E | E]; unfold t, initializeFaceTracker; cbn; now rewrite E.
  - intros p E Hp. unfold t, initializeFaceTracker. cbn. rewrite E.
    destruct p; [ contradiction | reflexivity ].
  - unfold t, initializeFaceTracker, setFromClient, updateDebug.
    cbn [debugEl].
    destruct (dataset_debug c) as [d | ]; [ | split; [ now intros [] | discriminate ] ].
    destruct (String.eqb_spec d "true").
    + subst. split; [ reflexivity | discriminate ].
    + split; [ now intros [] | intros [= E]; contradiction ].
Qed.

Lemma initial_state_witness :
  let c := {| dataset_basePath := Some "/img/"%string; dataset_debug := None |} in
  let rect := {| left := Fin (10 # 1); top := Fin (20 # 1);
                 width := Fin (300 # 1); height := Fin (300 # 1) |} in
  img_src (initializeFaceTracker c rect) = "/img/gaze_px0p0_py0p0_256.webp"%string.
Proof.
  intros c rect.
  assert (H : usable_rect rect).
  { exists (10 # 1), (20 # 1), (300 # 1), (300 # 1), (150 # 1), (150 # 1).
    split; [ reflexivity | ].
    split; [ vm_compute; reflexivity | ].
    split; [ discriminate | ].
    split; [ vm_compute; reflexivity | discriminate ]. }
  assert (F : finite_center rect) by (split; vm_compute; reflexivity).
  exact (proj1 (initial_state c rect H F)).
Defined.

Lemma unit_quotient (hw : Q) : 0 < hw -> (Fin hw / Fin hw)%js = Fin 1.
Proof.
  intros H. cbn [div]. rewrite (Qeq_bool_pos hw H).
  rewrite (round64_comp (hw / hw) 1) by (field; lra).
  vm_compute. reflexivity.
Qed.

Lemma minus_unit_quotient (hw : Q) : 0 < hw -> (Fin (- hw) / Fin hw)%js = Fin (-1).
Proof.
  intros H. cbn [div]. rewrite (Qeq_bool_pos hw H).
  rewrite (round64_comp (- hw / hw) (-1)) by (field; lra).
  vm_compute. reflexivity.
Qed.

Lemma clamp_unit_top (a : number) (q : Q) :
  num_le (Fin 1) a ->
  clamp a (num_of_Z (-1)) (num_of_Z 1) = Fin q -> q == 1.
Proof.
  intros H E.
  assert (L : num_le (clamp (Fin 1) (Fin (-1)) (Fin 1))
                     (clamp a (Fin (-1)) (Fin 1)))
    by (now apply clamp_mono).
  unfold num_of_Z in E. change (inject_Z (-1)) with (-1) in E.
  change (inject_Z 1) with 1 in E. rewrite E in L.
  change (clamp (Fin 1) (Fin (-1)) (Fin 1)) with (Fin 1) in L.
  apply num_le_Fin in L.
  destruct (clamp_unit_bounds a (proj2 (num_le_not_NaN _ _ H))) as [q' [E' B]].
  unfold num_of_Z in E'. change (inject_Z (-1)) with (-1) in E'.
  change (inject_Z 1) with 1 in E'. rewrite E in E'. injection E' as <-.
  lra.
Qed.

Lemma clamp_unit_bottom (a : number) (q : Q) :
  num_le a (Fin (-1)) ->
  clamp a (num_of_Z (-1)) (num_of_Z 1) = Fin q -> q == -1.
Proof.
  intros H E.
  assert (L : num_le (clamp a (Fin (-1)) (Fin 1))
                     (clamp (Fin (-1)) (Fin (-1)) (Fin 1)))
    by (now apply clamp_mono).
  unfold num_of_Z in E. change (inject_Z (-1)) with (-1) in E.
  change (inject_Z 1) with 1 in E. rewrite E in L.
  change (clamp (Fin (-1)) (Fin (-1)) (Fin 1)) with (Fin (-1)) in L.
  apply num_le_Fin in L.
  destruct (clamp_unit_bounds a (proj1 (num_le_not_NaN _ _ H))) as [q' [E' B]].
  unfold num_of_Z in E'. change (inject_Z (-1)) with (-1) in E'.
  change (inject_Z 1) with 1 in E'. rewrite E in E'. injection E' as <-.
  lra.
Qed.

Lemma quantize_one (q : Q) (g : Z) :
  q == 1 -> quantizeToGrid (Fin q) = num_of_Z g -> g = 15%Z.
Proof.
  intros H G. rewrite (quantizeToGrid_comp q 1 H) in G.
  apply num_of_Z_inj. rewrite <- G. vm_compute. reflexivity.
Qed.

Lemma quantize_minus_one (q : Q) (g : Z) :
  q == -1 -> quantizeToGrid (Fin q) = num_of_Z g -> g = (-15)%Z.
Proof.
  intros H G. rewrite (quantizeToGrid_comp q (-1) H) in G.
  apply num_of_Z_inj. rewrite <- G. vm_compute. reflexivity.
Qed.

(** An offset of at least the half size gives the sample 1, one of at most
    minus the half size the sample -1. *)
Lemma sample_saturates (off : number) (hw q : Q) :
  0 < hw ->
  clamp (off / Fin hw)%js (num_of_Z (-1)) (num_of_Z 1) = Fin q ->
  (num_le (Fin hw) off -> q == 1)
  /\ (num_le off (- Fin hw)%js -> q == -1).
Proof.
  intros Hw E. split; intros H.
  - apply (clamp_unit_top (off / Fin hw)%js); [ | exact E ].
    rewrite <- (unit_quotient hw Hw). now apply div_mono_r.
  - apply (clamp_unit_bottom (off / Fin hw)%js); [ | exact E ].
    rewrite <- (minus_unit_quotient hw Hw). now apply div_mono_r.
Qed.

Lemma pointer_saturation (rect : DOMRect) (x y : Q) (t : Tracker) :
  usable_rect rect ->
  upright_rect rect ->
  exists gx gy : Z,
    img_src (handleMouseMove rect (Fin x) (Fin y) t)
    = (basePath t ++ encode gx gy 256)%string
    /\ (num_le (half_width rect) (offset_x rect (Fin x)) -> gx = 15%Z)
    /\ (num_le (offset_x rect (Fin x)) (- half_width rect)%js -> gx = (-15)%Z)
    /\ (num_le (half_height rect) (offset_y rect (Fin y)) -> gy = 15%Z)
    /\ (num_le (offset_y rect (Fin y)) (- half_height rect)%js -> gy = (-15)%Z).
Proof.
  intros H U. unfold handleMouseMove.
  destruct (setFromClient_grid rect (Fin x) (Fin y) t H eq_refl eq_refl)
    as [qx [qy [gx [gy [Ex [_ [Ey [_ [_ [_ [Q E]]]]]]]]]]].
  exists gx, gy. split; [ exact E | ].
  unfold quantize in Q. injection Q as Gx Gy.
  destruct H as [l [tp [w [h [hw [hh [-> [Hw [Nw [Hh Nh]]]]]]]]]].
  destruct U as [Uw Uh]. cbn [width height] in Uw, Uh.
  apply num_le_Fin in Uw, Uh.
  assert (Pw : 0 < hw) by exact (half_positive w hw Uw Hw Nw).
  assert (Ph : 0 < hh) by exact (half_positive h hh Uh Hh Nh).
  unfold pointer_sample_x in Ex. unfold pointer_sample_y in Ey.
  rewrite Hw in *. rewrite Hh in *.
  destruct (sample_saturates _ hw qx Pw Ex) as [X1 X2].
  destruct (sample_saturates _ hh qy Ph Ey) as [Y1 Y2].
  repeat split; intros L.
  - exact (quantize_one qx gx (X1 L) Gx).
  - exact (quantize_minus_one qx gx (X2 L) Gx).
  - exact (quantize_one qy gy (Y1 L) Gy).
  - exact (quantize_minus_one qy gy (Y2 L) Gy).
Qed.

(** X11.  A pointer outside the container saturates the gaze, the vertical
    axis being inverted.  For a usable rectangle with sizes that are not
    negative: when the horizontal offset of the pointer from the center, as
    the program computes it, is at least the half width, the asset has
    px = 15; when it is at most minus the half width, px = -15; likewise
    the vertical offset, which points up, against the half height gives
    py = 15 and py = -15. *)
Theorem pointer_outside_saturates (rect : DOMRect) (x y : Q) (t : Tracker) :
  usable_rect rect ->
  upright_rect rect ->
  exists gx gy : Z,
    img_src (handleMouseMove rect (Fin x) (Fin y) t)
    = (basePath t ++ encode gx gy 256)%string
    /\ (num_le (half_width rect) (offset_x rect (Fin x)) -> gx = 15%Z)
    /\ (num_le (offset_x rect (Fin x)) (- half_width rect)%js -> gx = (-15)%Z)
    /\ (num_le (half_height rect) (offset_y rect (Fin y)) -> gy = 15%Z)
    /\ (num_le (offset_y rect (Fin y)) (- half_height rect)%js -> gy = (-15)%Z).
Proof. exact (pointer_saturation rect x y t). Qed.

Lemma pointer_outside_saturates_witness :
  img_src (handleMouseMove demo_rect (Fin (500 # 1)) (Fin (- (3 # 1))) demo_tracker)
  = "/faces/gaze_px15p0_py15p0_256.webp"%string.
Proof.
  assert (U : upright_rect demo_rect) by (split; reflexivity).
  destruct (pointer_outside_saturates demo_rect (500 # 1) (- (3 # 1))
              demo_tracker demo_rect_usable U)
    as [gx [gy [E [X [_ [Y _]]]]]].
  rewrite E, (X eq_refl), (Y eq_refl). reflexivity.
Defined.

(** A multiple of a power of two with at most 53 significant bits is a
    binary64 number: rounding leaves it as it is. *)
Lemma round_pos_dyadic (n p : Z) :
  (0 < n < 2 ^ 53)%Z -> (-1074 <= p)%Z ->
  round_pos (inject_Z n * 2 ^ p) == inject_Z n * 2 ^ p.
Proof.
  intros Hn Hp. remember (inject_Z n * 2 ^ p) as x eqn:Ex.
  assert (Pp := pow2_pos p).
  assert (N0 : 0 < inject_Z n) by (rewrite <- (Zlt_Qlt 0); lia).
  assert (N1 : inject_Z n < 2 ^ 53).
  { rewrite <- pow2_Z by lia. rewrite <- Zlt_Qlt. lia. }
  assert (Hx : 0 < x) by (subst x; apply Qmult_lt_0_compat; assumption).
  destruct (Qlog2_spec x Hx) as [L1 L2].
  assert (U : x < 2 ^ (53 + p)).
  { subst x. rewrite pow2_plus. apply Qmult_lt_compat_r; assumption. }
  assert (HL : (Qlog2 x < 53 + p)%Z).
  { apply pow2_lt_inv. lra. }
  rewrite round_pos_eq.
  remember (expo x) as e eqn:Ee.
  assert (He : (e <= p)%Z) by (subst e; unfold expo; lia).
  assert (M := pow2_as_multiple p e He).
  assert (Pe := pow2_pos e).
  assert (Q : x / 2 ^ e == inject_Z (n * 2 ^ (p - e))).
  { rewrite inject_Z_mult. subst x. rewrite M. field. lra. }
  rewrite (nearest_even_comp _ _ Q), nearest_even_Z.
  rewrite inject_Z_mult. subst x. rewrite M. ring.
Qed.

Lemma negative_factor (n : Z) (c : Q) :
  0 < c -> inject_Z n * c < 0 -> (n < 0)%Z.
Proof.
  intros Hc H. rewrite (Zlt_Qlt n 0). change (inject_Z 0) with 0. nra.
Qed.

Lemma positive_factor (n : Z) (c : Q) :
  0 < c -> 0 < inject_Z n * c -> (0 < n)%Z.
Proof.
  intros Hc H. rewrite (Zlt_Qlt 0 n). change (inject_Z 0) with 0. nra.
Qed.

Lemma round64_dyadic (n p : Z) :
  (Z.abs n < 2 ^ 53)%Z -> (-1074 <= p <= 971)%Z ->
  round64 (inject_Z n * 2 ^ p) = Fin (Qred (inject_Z n * 2 ^ p)).
Proof.
  intros Hn Hp. assert (Pp := pow2_pos p).
  assert (B : forall m : Z, (0 < m < 2 ^ 53)%Z ->
            round_pos (inject_Z m * 2 ^ p) < 2 ^ 1024).
  { intros m Hm. rewrite (round_pos_dyadic m p Hm) by lia.
    assert (N1 : inject_Z m < 2 ^ 53).
    { rewrite <- pow2_Z by lia. rewrite <- Zlt_Qlt. lia. }
    apply Qlt_le_trans with (2 ^ (53 + p)).
    - rewrite pow2_plus. apply Qmult_lt_compat_r; assumption.
    - apply pow2_le. lia. }
  destruct (round64_cases (inject_Z n * 2 ^ p))
    as [[Z E] | [[Hx [Ho E]] | [[Hx [_ E]] | [[Hx [Ho E]] | [Hx [_ E]]]]]];
    rewrite E.
  - f_equal. symmetry. apply (Qred_complete _ 0 Z).
  - exfalso.
    assert (Hm : (0 < - n < 2 ^ 53)%Z).
    { assert (n < 0)%Z by exact (negative_factor n _ Pp Hx). lia. }
    specialize (B (- n)%Z Hm).
    rewrite (round_pos_comp (- (inject_Z n * 2 ^ p)) (inject_Z (- n) * 2 ^ p)) in Ho.
    + lra.
    + lra.
    + rewrite inject_Z_opp. ring.
  - f_equal. apply Qred_complete.
    assert (Hm : (0 < - n < 2 ^ 53)%Z).
    { assert (n < 0)%Z by exact (negative_factor n _ Pp Hx). lia. }
    rewrite (round_pos_comp (- (inject_Z n * 2 ^ p)) (inject_Z (- n) * 2 ^ p)).
    + rewrite (round_pos_dyadic _ p Hm) by lia. rewrite inject_Z_opp. ring.
    + lra.
    + rewrite inject_Z_opp. ring.
  - exfalso.
    assert (Hm : (0 < n < 2 ^ 53)%Z).
    { assert (0 < n)%Z by exact (positive_factor n _ Pp Hx). lia. }
    specialize (B n Hm). lra.
  - f_equal. apply Qred_complete.
    assert (Hm : (0 < n < 2 ^ 53)%Z).
    { assert (0 < n)%Z by exact (positive_factor n _ Pp Hx). lia. }
    apply (round_pos_dyadic n p Hm). lia.
Qed.

(** Halves of integers below 2^53 are computed exactly. *)
Lemma round64_half (n : Z) (q : Q) :
  (Z.abs n < 2 ^ 53)%Z -> q == inject_Z n / 2 ->
  exists r : Q, round64 q = Fin r /\ r == inject_Z n / 2.
Proof.
  intros Hn Hq.
  assert (E : q == inject_Z n * 2 ^ (-1)).
  { rewrite Hq. change (2 ^ (-1)) with (1 # 2). field. }
  rewrite (round64_comp _ _ E), (round64_dyadic n (-1) Hn) by lia.
  eexists. split; [ reflexivity | ].
  rewrite Qred_correct. change (2 ^ (-1)) with (1 # 2). field.
Qed.

Lemma half_of_Z (w : Z) : (num_of_Z w / num_of_Z 2)%js = round64 (inject_Z w / 2).
Proof. reflexivity. Qed.

(** On pixel data the half size, the center and the offset from it are
    computed exactly. *)
Lemma pixel_offsets (l w x : Z) :
  pixel_range l -> pixel_range w -> pixel_range x ->
  exists hw d d' : Q,
    (num_of_Z w / num_of_Z 2)%js = Fin hw
    /\ hw == inject_Z w / 2
    /\ (num_of_Z x - (num_of_Z l + Fin hw))%js = Fin d
    /\ d == inject_Z (2 * x - 2 * l - w) / 2
    /\ ((num_of_Z l + Fin hw) - num_of_Z x)%js = Fin d'
    /\ d' == inject_Z (2 * l + w - 2 * x) / 2.
Proof.
  unfold pixel_range. intros Hl Hw Hx.
  destruct (round64_half w (inject_Z w / 2)) as [hw [E1 Q1]];
    [ lia | reflexivity | ].
  destruct (round64_half (2 * l + w) (inject_Z l + hw)) as [c [E2 Q2]].
  { lia. }
  { rewrite Q1, inject_Z_plus, inject_Z_mult. change (inject_Z 2) with 2. field. }
  destruct (round64_half (2 * x - 2 * l - w) (inject_Z x - c)) as [d [E3 Q3]].
  { lia. }
  { rewrite Q2. unfold Z.sub.
    rewrite !inject_Z_plus, !inject_Z_opp, !inject_Z_mult.
    change (inject_Z 2) with 2. field. }
  destruct (round64_half (2 * l + w - 2 * x) (c - inject_Z x)) as [d' [E4 Q4]].
  { lia. }
  { rewrite Q2. unfold Z.sub.
    rewrite !inject_Z_plus, !inject_Z_opp, !inject_Z_mult.
    change (inject_Z 2) with 2. field. }
  exists hw, d, d'. rewrite half_of_Z, E1.
  split; [ reflexivity | ]. split; [ exact Q1 | ].
  unfold num_of_Z. cbn [add]. rewrite E2. cbn [sub]. rewrite E3, E4.
  now repeat split.
Qed.

(** X27.  Pixel data.  When the rectangle and the pointer position are
    integers of magnitude at most 2^50 and the rectangle has a positive
    width and height, the offsets are computed exactly, and the pointer
    saturates the gaze at the edges of the rectangle themselves: at or
    beyond the right edge px = 15, at or beyond the left edge px = -15, at
    or above the top edge py = 15, at or below the bottom edge py = -15. *)
Theorem pixel_pointer_outside_saturates (l tp w h x y : Z) (t : Tracker) :
  (0 < w)%Z -> (0 < h)%Z ->
  Forall pixel_range [l; tp; w; h; x; y] ->
  exists gx gy : Z,
    img_src (handleMouseMove (pixel_rect l tp w h) (num_of_Z x) (num_of_Z y) t)
    = (basePath t ++ encode gx gy 256)%string
    /\ (l + w <= x -> gx = 15)%Z
    /\ (x <= l -> gx = -15)%Z
    /\ (y <= tp -> gy = 15)%Z
    /\ (tp + h <= y -> gy = -15)%Z.
Proof.
  intros Pw Ph R.
  inversion R as [ | ? ? Rl R1]; subst. inversion R1 as [ | ? ? Rt R2]; subst.
  inversion R2 as [ | ? ? Rw R3]; subst. inversion R3 as [ | ? ? Rh R4]; subst.
  inversion R4 as [ | ? ? Rx R5]; subst. inversion R5 as [ | ? ? Ry _]; subst.
  destruct (pixel_offsets l w x Rl Rw Rx) as [hw [dx [_ [Ew [Qw [Ex [Qx _]]]]]]].
  destruct (pixel_offsets tp h y Rt Rh Ry) as [hh [_ [dy [Eh [Qh [_ [_ [Ey Qy]]]]]]]].
  assert (Hw : 0 < hw).
  { rewrite Qw. apply Qlt_shift_div_l; [ reflexivity | ].
    rewrite Qmult_0_l. rewrite <- (Zlt_Qlt 0). exact Pw. }
  assert (Hh : 0 < hh).
  { rewrite Qh. apply Qlt_shift_div_l; [ reflexivity | ].
    rewrite Qmult_0_l. rewrite <- (Zlt_Qlt 0). exact Ph. }
  assert (U : usable_rect (pixel_rect l tp w h)).
  { exists (inject_Z l), (inject_Z tp), (inject_Z w), (inject_Z h), hw, hh.
    split; [ reflexivity | ].
    split; [ exact Ew | ]. split; [ lra | ].
    split; [ exact Eh | lra ]. }
  assert (V : upright_rect (pixel_rect l tp w h)).
  { split; apply num_le_Fin; rewrite <- (Zle_Qle 0); lia. }
  destruct (pointer_saturation (pixel_rect l tp w h)
              (inject_Z x) (inject_Z y) t U V)
    as [gx [gy [E [X1 [X2 [Y1 Y2]]]]]].
  exists gx, gy. split; [ exact E | ].
  unfold offset_x, offset_y, half_width, half_height in X1, X2, Y1, Y2.
  cbn [left top width height pixel_rect] in X1, X2, Y1, Y2.
  rewrite Ew in X1, X2. rewrite Eh in Y1, Y2.
  change (Fin (inject_Z x)) with (num_of_Z x) in X1, X2.
  change (Fin (inject_Z y)) with (num_of_Z y) in Y1, Y2.
  rewrite Ex in X1, X2. rewrite Ey in Y1, Y2.
  cbn [neg] in X2, Y2.
  assert (I : forall a b : Z, (a <= b)%Z -> inject_Z a / 2 <= inject_Z b / 2).
  { intros a b H. rewrite Zle_Qle in H. unfold Qdiv. change (/ 2) with (1 # 2). lra. }
  repeat split; intros H.
  - apply X1, num_le_Fin. rewrite Qw, Qx. apply I. lia.
  - apply X2, num_le_Fin. rewrite Qw, Qx.
    setoid_replace (- (inject_Z w / 2)) with (inject_Z (- w) / 2)
      by (rewrite inject_Z_opp; field).
    apply I. lia.
  - apply Y1, num_le_Fin. rewrite Qh, Qy. apply I. lia.
  - apply Y2, num_le_Fin. rewrite Qh, Qy.
    setoid_replace (- (inject_Z h / 2)) with (inject_Z (- h) / 2)
      by (rewrite inject_Z_opp; field).
    apply I. lia.
Qed.

Lemma pixel_pointer_outside_saturates_witness :
  img_src (handleMouseMove (pixel_rect 10 20 300 200) (num_of_Z 5) (num_of_Z 220)
             demo_tracker)
  = "/faces/gaze_pxm15p0_pym15p0_256.webp"%string.
Proof.
  assert (R : Forall pixel_range [10; 20; 300; 200; 5; 220]%Z)
    by (repeat constructor; unfold pixel_range; simpl; lia).
  destruct (pixel_pointer_outside_saturates 10 20 300 200 5 220 demo_tracker
              ltac:(lia) ltac:(lia) R)
    as [gx [gy [E [_ [X [_ Y]]]]]].
  rewrite E, (X ltac:(lia)), (Y ltac:(lia)). reflexivity.
Defined.

Lemma append_inj_r (a b c : string) : (a ++ b = a ++ c)%string -> b = c.
Proof.
  induction a as [ | x a IH]; simpl; intros H; [ exact H | ].
  injection H as H. now apply IH.
Qed.

(** X12.  A container whose rectangle has width 0 and height 0 (a hidden
    element) makes a new instance ask for [gaze_pxNaN_pyNaN_256.webp], which
    is not an asset of the grid: the division by the zero half-size is not
    guarded. *)
Theorem empty_rect_gives_NaN (c : Container) (l tp w h : Q) :
  w == 0 -> h == 0 ->
  let rect := {| left := Fin l; top := Fin tp; width := Fin w; height := Fin h |} in
  let t := initializeFaceTracker c rect in
  img_src t = (basePath t ++ "gaze_pxNaN_pyNaN_256.webp")%string
  /\ ~ shows_grid_asset t.
Proof.
  intros Hw Hh rect t.
  assert (Zx : forall a d : Q, d == 0 ->
            let m := (Fin a + Fin d / num_of_Z 2)%js in
            ((m - m) / (Fin d / num_of_Z 2))%js = NaN).
  { intros a d Hd m. unfold m. rewrite half_of_Fin.
    rewrite (round64_zero (d / 2)) by (rewrite Hd; reflexivity).
    cbn [add]. destruct (round64_cases (a + 0))
      as [[_ ->] | [[_ [_ ->]] | [[_ [_ ->]] | [[_ [_ ->]] | [_ [_ ->]]]]]];
      try reflexivity; cbn [sub]; rewrite round64_zero by ring; reflexivity. }
  assert (E : img_src t = (basePath t ++ "gaze_pxNaN_pyNaN_256.webp")%string).
  { unfold t, initializeFaceTracker. rewrite setFromClient_shows.
    unfold pointer_sample_x, pointer_sample_y, offset_x, offset_y,
      half_width, half_height, rect.
    cbn [left top width height].
    rewrite (Zx l w Hw), (Zx tp h Hh). reflexivity. }
  split; [ exact E | ].
  intros [gx [gy [Hx [Hy G]]]]. rewrite E in G.
  apply append_inj_r in G.
  each_grid_value Hx; discriminate G.
Qed.

Lemma empty_rect_gives_NaN_witness :
  img_src (initializeFaceTracker demo_container
             {| left := Fin 0; top := Fin 0; width := Fin 0; height := Fin 0 |})
  = "/faces/gaze_pxNaN_pyNaN_256.webp"%string.
Proof.
  exact (proj1 (empty_rect_gives_NaN demo_container 0 0 0 0
                  (Qeq_refl 0) (Qeq_refl 0))).
Defined.

(* ------------------------------------------------------------------ *)
(** ** More on orientation mode and on runs of events *)

Open Scope Q_scope.

Lemma step_mode_off (t : Tracker) (ev : Event) :
  useOrientation t = false -> ev <> EnableOrientation ->
  useOrientation (step t ev) = false
  /\ baseOrientation (step t ev) = baseOrientation t
  /\ hasCalibrated (step t ev) = hasCalibrated t.
Proof.
  intros Hu Hev. destruct ev as [rect x y | rect touches | e | | ]; simpl.
  - now repeat split.
  - unfold handleTouch. destruct touches as [[ | p ps] | ]; now repeat split.
  - unfold handleOrientation. rewrite Hu. now repeat split.
  - contradiction.
  - now repeat split.
Qed.

(** X13.  Only [enableOrientation] turns orientation mode on.  Through any
    events other than that call, an instance with the mode off keeps it off
    and keeps its baseline and its calibrated flag. *)
Theorem only_enable_turns_mode_on (evs : list Event) : forall t : Tracker,
  useOrientation t = false ->
  same_session evs ->
  useOrientation (run t evs) = false
  /\ baseOrientation (run t evs) = baseOrientation t
  /\ hasCalibrated (run t evs) = hasCalibrated t.
Proof.
  induction evs as [ | ev evs IH]; intros t Hu Hs.
  - now repeat split.
  - inversion Hs as [ | ? ? Hev Hrest]; subst.
    destruct (step_mode_off t ev Hu Hev) as [U1 [B1 C1]].
    destruct (IH (step t ev) U1 Hrest) as [U2 [B2 C2]].
    change (run t (ev :: evs)) with (run (step t ev) evs).
    rewrite U2, B2, C2. now repeat split.
Qed.

Lemma only_enable_turns_mode_on_witness :
  let evs := [DeviceOrientation (reading (Some (12 # 1)) None);
              MouseMove demo_rect (num_of_Z 3) (num_of_Z 4);
              DisableOrientation] in
  useOrientation (run demo_tracker evs) = false
  /\ baseOrientation (run demo_tracker evs) = baseOrientation demo_tracker.
Proof.
  intros evs.
  assert (Hs : same_session evs) by (repeat constructor; discriminate).
  destruct (only_enable_turns_mode_on evs demo_tracker eq_refl Hs) as [U [B _]].
  split; [ exact U | exact B ].
Defined.

Lemma run_orientation_off (es : list OrientationEvent) : forall t : Tracker,
  useOrientation t = false -> run t (map DeviceOrientation es) = t.
Proof.
  induction es as [ | e es IH]; intros t Hu; [ reflexivity | ].
  simpl map. change (run t (DeviceOrientation e :: map DeviceOrientation es))
    with (run (handleOrientation e t) (map DeviceOrientation es)).
  assert (E : handleOrientation e t = t)
    by (unfold handleOrientation; now rewrite Hu).
  rewrite E. now apply IH.
Qed.

(** X14.  A touch event with touch points acts as a mouse move at the first
    point followed by [disableOrientation]; the other points play no part,
    and the orientation readings that follow change nothing. *)
Theorem touch_then_readings_ignored (rect : DOMRect) (p : TouchPoint)
    (ps : list TouchPoint) (es : list OrientationEvent) (t : Tracker) :
  let t' := handleTouch rect (Some (p :: ps)) t in
  t' = disableOrientation
         (handleMouseMove rect (touch_clientX p) (touch_clientY p) t)
  /\ t' = handleTouch rect (Some [p]) t
  /\ run t' (map DeviceOrientation es) = t'.
Proof.
  intros t'. split; [ reflexivity | ]. split; [ reflexivity | ].
  now apply run_orientation_off.
Qed.

(** X15.  The first reading after [enableOrientation], whatever its angles
    and whether they are present, shows the center asset and leaves the
    instance calibrated, in orientation mode. *)
Theorem first_reading_shows_center (t : Tracker) (b g : option Q) :
  let t' := handleOrientation (reading b g) (enableOrientation t) in
  img_src t' = (basePath t ++ center_asset)%string
  /\ hasCalibrated t' = true
  /\ useOrientation t' = true.
Proof.
  intros t'.
  destruct (nullable_or_zero_reading b) as [vb [Eb Hb]].
  destruct (nullable_or_zero_reading g) as [vg [Eg Hg]].
  split; [ | now split ].
  unfold t'.
  rewrite (handleOrientation_shows (enableOrientation t) (reading b g)
             vb vg vb vg eq_refl Eb Eg eq_refl).
  now rewrite !tilt_sample_same, quantizeToGrid_zero.
Qed.

(** The binary64 numbers above 27 start at 27 + 2^-48. *)
Lemma round64_above_27 (x : Q) :
  num_le (num_of_Z 27) (round64 x) ->
  round64 x <> num_of_Z 27 ->
  num_le (Fin after_27) (round64 x).
Proof.
  unfold num_of_Z. change (inject_Z 27) with 27.
  destruct (round64_cases x)
    as [[_ E] | [[_ [_ E]] | [[Hx [_ E]] | [[_ [_ E]] | [Hx [Hr E]]]]]];
    rewrite E; intros L N.
  - apply num_le_Fin in L. lra.
  - discriminate L.
  - apply num_le_Fin in L. rewrite Qred_correct in L.
    assert (P : 0 <= round_pos (- x)) by (apply round_pos_nonneg; lra). lra.
  - reflexivity.
  - apply num_le_Fin in L. rewrite Qred_correct in L.
    apply num_le_Fin. rewrite Qred_correct.
    assert (S : 27 < round_pos x).
    { destruct (Qlt_le_dec 27 (round_pos x)) as [S | S]; [ exact S | ].
      exfalso. apply N. f_equal.
      assert (Q27 : round_pos x == 27) by lra.
      rewrite (Qred_complete _ _ Q27). reflexivity. }
    clear L N E.
    assert (He : (4 <= Qlog2 x)%Z).
    { destruct (Z_le_gt_dec 4 (Qlog2 x)) as [H | H]; [ exact H | exfalso ].
      assert (U := round_pos_upper x Hx).
      assert (P : 2 ^ (Z.max (Qlog2 x) (-1022) + 1) <= 2 ^ 4)
        by (apply pow2_le; lia).
      change (2 ^ 4) with 16 in P. lra. }
    rewrite round_pos_eq in *. unfold expo in *.
    replace (Z.max (Qlog2 x) (-1022)) with (Qlog2 x) in * by lia.
    remember (nearest_even (x / 2 ^ (Qlog2 x - 52))) as m eqn:Em. clear Em.
    assert (M : 2 ^ (Qlog2 x - 52)
                == inject_Z (2 ^ (Qlog2 x - 52 - -48)) * 2 ^ (-48))
      by (apply pow2_as_multiple; lia).
    remember (2 ^ (Qlog2 x - 52 - -48))%Z as c eqn:Ec. clear Ec.
    rewrite M in *. change (2 ^ (-48)) with (1 # 281474976710656) in *.
    rewrite Qmult_assoc in *. rewrite <- inject_Z_mult in *.
    remember (m * c)%Z as n eqn:En. clear En.
    assert (Z1 : inject_Z (27 * 281474976710656) < inject_Z n).
    { change (inject_Z (27 * 281474976710656)) with (7599824371187712 # 1). lra. }
    rewrite <- Zlt_Qlt in Z1.
    assert (Z2 : (27 * 281474976710656 + 1 <= n)%Z) by lia.
    rewrite Zle_Qle in Z2.
    change (inject_Z (27 * 281474976710656 + 1)) with (7599824371187713 # 1) in Z2.
    unfold after_27. lra.
Qed.

(** The sample, and so the grid value, falls as the difference from the
    baseline rises. *)
Lemma sample_of_delta_antitone (d d' : number) :
  num_le d d' ->
  num_le (quantizeToGrid (clamp (- d' / num_of_Z 30)%js (num_of_Z (-1)) (num_of_Z 1)))
         (quantizeToGrid (clamp (- d / num_of_Z 30)%js (num_of_Z (-1)) (num_of_Z 1))).
Proof.
  intros H. apply quantizeToGrid_mono. unfold num_of_Z.
  apply clamp_mono. apply div_mono_r; [ reflexivity | ].
  now apply neg_antitone.
Qed.

Lemma tilt_cell (v b : Q) (g : Z) :
  quantizeToGrid (tilt_sample v b) = num_of_Z g ->
  (num_le (tilt_delta v b) (num_of_Z (-27)) -> g = 15%Z)
  /\ (tilt_delta v b = num_of_Z 27 -> g = (-12)%Z)
  /\ (num_le (num_of_Z 27) (tilt_delta v b) ->
      tilt_delta v b <> num_of_Z 27 -> g = (-15)%Z).
Proof.
  intros G.
  assert (B : (-15 <= g <= 15)%Z).
  { destruct (tilt_sample_bounds v b) as [q [E _]]. rewrite E in G.
    destruct (quantizeToGrid_Fin_image q) as [g' [Hg' G']].
    rewrite G' in G. apply num_of_Z_inj in G. subst g'.
    now apply grid_bounds. }
  unfold tilt_sample in G.
  split; [ | split ].
  - intros L. apply sample_of_delta_antitone in L. rewrite G in L.
    assert (E : quantizeToGrid
                  (clamp (- num_of_Z (-27) / num_of_Z 30)%js
                     (num_of_Z (-1)) (num_of_Z 1)) = num_of_Z 15)
      by (vm_compute; reflexivity).
    rewrite E in L. apply num_le_Z in L. lia.
  - intros E. rewrite E in G. apply num_of_Z_inj. rewrite <- G.
    vm_compute. reflexivity.
  - intros L N. unfold tilt_delta in *. cbn [sub] in *.
    assert (A := round64_above_27 _ L N).
    apply sample_of_delta_antitone in A. rewrite G in A.
    assert (E : quantizeToGrid
                  (clamp (- Fin after_27 / num_of_Z 30)%js
                     (num_of_Z (-1)) (num_of_Z 1)) = num_of_Z (-15))
      by (vm_compute; reflexivity).
    rewrite E in A. apply num_le_Z in A. lia.
Qed.

(** An enabled instance with a finite baseline shows, on a finite or absent
    reading, the asset of a grid cell. *)
Lemma handleOrientation_grid (t : Tracker) (b g : option Q) (vb vg b1 g1 : Q) :
  useOrientation t = true ->
  nullable_or_zero (option_map Fin b) = Fin vb ->
  nullable_or_zero (option_map Fin g) = Fin vg ->
  (if hasCalibrated t then baseOrientation t
   else {| beta := Fin vb; gamma := Fin vg |})
  = {| beta := Fin b1; gamma := Fin g1 |} ->
  exists gx gy : Z,
    In gx grid /\ In gy grid
    /\ quantizeToGrid (tilt_sample vg g1) = num_of_Z gx
    /\ quantizeToGrid (tilt_sample vb b1) = num_of_Z gy
    /\ img_src (handleOrientation (reading b g) t)
       = (basePath t ++ encode gx gy SIZE)%string.
Proof.
  intros Hu Eb Eg B.
  destruct (tilt_sample_bounds vg g1) as [qx [Ex _]].
  destruct (tilt_sample_bounds vb b1) as [qy [Ey _]].
  destruct (quantizeToGrid_Fin_image qx) as [gx [Hgx Gx]].
  destruct (quantizeToGrid_Fin_image qy) as [gy [Hgy Gy]].
  exists gx, gy. split; [ exact Hgx | ]. split; [ exact Hgy | ].
  rewrite Ex, Ey. split; [ exact Gx | ]. split; [ exact Gy | ].
  rewrite (handleOrientation_shows t (reading b g) vb vg b1 g1 Hu Eb Eg B).
  rewrite Ex, Ey, Gx, Gy. now rewrite gridToFilename_grid.
Qed.

(** X16.  Tilt saturates at 27 degrees from the baseline, not at 30, and not
    symmetrically.  On an enabled, calibrated instance, with the difference
    of a reading from the baseline as the program computes it: a difference
    of -27 or less gives +15; a difference of exactly 27 gives -12, the tie
    going up; and a difference above 27 gives -15.  This holds for gamma
    and px as for beta and py. *)
Theorem tilt_saturation (t : Tracker) (b g b0 g0 : Q) :
  useOrientation t = true ->
  hasCalibrated t = true ->
  baseOrientation t = {| beta := Fin b0; gamma := Fin g0 |} ->
  exists gx gy : Z,
    img_src (handleOrientation (reading (Some b) (Some g)) t)
    = (basePath t ++ encode gx gy 256)%string
    /\ (num_le (tilt_delta g g0) (num_of_Z (-27)) -> gx = 15%Z)
    /\ (tilt_delta g g0 = num_of_Z 27 -> gx = (-12)%Z)
    /\ (num_le (num_of_Z 27) (tilt_delta g g0) ->
        tilt_delta g g0 <> num_of_Z 27 -> gx = (-15)%Z)
    /\ (num_le (tilt_delta b b0) (num_of_Z (-27)) -> gy = 15%Z)
    /\ (tilt_delta b b0 = num_of_Z 27 -> gy = (-12)%Z)
    /\ (num_le (num_of_Z 27) (tilt_delta b b0) ->
        tilt_delta b b0 <> num_of_Z 27 -> gy = (-15)%Z).
Proof.
  intros Hu Hc Hbase.
  destruct (nullable_or_zero_reading (Some b)) as [vb [Eb Hb]].
  destruct (nullable_or_zero_reading (Some g)) as [vg [Eg Hg]].
  cbn [value_or_zero] in Hb, Hg.
  assert (B : (if hasCalibrated t then baseOrientation t
               else {| beta := Fin vb; gamma := Fin vg |})
              = {| beta := Fin b0; gamma := Fin g0 |}) by (now rewrite Hc).
  destruct (handleOrientation_grid t (Some b) (Some g) vb vg b0 g0 Hu Eb Eg B)
    as [gx [gy [_ [_ [Gx [Gy E]]]]]].
  rewrite (tilt_sample_comp vg g g0 g0 Hg (Qeq_refl g0)) in Gx.
  rewrite (tilt_sample_comp vb b b0 b0 Hb (Qeq_refl b0)) in Gy.
  exists gx, gy. split; [ exact E | ].
  destruct (tilt_cell g g0 gx Gx) as [X1 [X2 X3]].
  destruct (tilt_cell b b0 gy Gy) as [Y1 [Y2 Y3]].
  repeat (split; [ assumption | ]). assumption.
Qed.

Lemma tilt_saturation_witness :
  let t := handleOrientation (reading (Some (40 # 1)) (Some (5 # 1)))
             (enableOrientation demo_tracker) in
  img_src (handleOrientation (reading (Some (70 # 1)) (Some (- (30 # 1)))) t)
  = "/faces/gaze_px15p0_pym15p0_256.webp"%string.
Proof.
  intros t.
  destruct (tilt_saturation t (70 # 1) (- (30 # 1)) (40 # 1) (5 # 1)
              eq_refl eq_refl eq_refl)
    as [gx [gy [E [X [_ [_ [_ [_ Y]]]]]]]].
  rewrite E, (X eq_refl).
  rewrite Y; [ reflexivity | reflexivity | vm_compute; discriminate ].
Defined.

(** Invariants of a run *)

(** Invariants of a run *)

Lemma nullable_or_zero_not_NaN (v : option number) : nullable_or_zero v <> NaN.
Proof.
  destruct v as [[ | | | x] | ]; simpl; try discriminate.
  destruct (Qeq_bool x 0); discriminate.
Qed.

Lemma step_baseline_not_NaN (t : Tracker) (ev : Event) :
  beta (baseOrientation t) <> NaN /\ gamma (baseOrientation t) <> NaN ->
  beta (baseOrientation (step t ev)) <> NaN
  /\ gamma (baseOrientation (step t ev)) <> NaN.
Proof.
  intros H. destruct ev as [rect x y | rect touches | e | | ]; simpl; try exact H.
  - unfold handleTouch. destruct touches as [[ | p ps] | ]; exact H.
  - unfold handleOrientation.
    destruct (useOrientation t); simpl; [ | exact H ].
    destruct (hasCalibrated t); simpl; [ exact H | ].
    split; apply nullable_or_zero_not_NaN.
Qed.

(** X17.  Whatever events an instance receives, readings of [NaN] and of
    the infinities included, neither angle of its baseline is ever [NaN]. *)
Theorem baseline_never_NaN (c : Container) (rect : DOMRect) (evs : list Event) :
  let t := run (initializeFaceTracker c rect) evs in
  beta (baseOrientation t) <> NaN /\ gamma (baseOrientation t) <> NaN.
Proof.
  cbv zeta.
  assert (G : forall evs t,
            beta (baseOrientation t) <> NaN /\ gamma (baseOrientation t) <> NaN ->
            beta (baseOrientation (run t evs)) <> NaN
            /\ gamma (baseOrientation (run t evs)) <> NaN).
  { clear. induction evs as [ | ev evs IH]; intros t H; [ exact H | ].
    change (run t (ev :: evs)) with (run (step t ev) evs).
    apply IH, step_baseline_not_NaN, H. }
  apply G. split; discriminate.
Qed.

Lemma step_erase_debug (t : Tracker) (ev : Event) :
  erase_debug (step t ev) = step (erase_debug t) ev.
Proof.
  destruct ev as [rect x y | rect touches | e | | ]; simpl; try reflexivity.
  - unfold handleTouch. destruct touches as [[ | p ps] | ]; reflexivity.
  - destruct t as [bp img dbg u base cal]. destruct u; reflexivity.
Qed.

(** X18.  The debug overlay does not interfere: running the same events
    with and without it gives the same image, flags and baseline, and an
    instance created without the overlay never gets one. *)
Theorem debug_overlay_does_not_interfere (evs : list Event) : forall t : Tracker,
  erase_debug (run t evs) = run (erase_debug t) evs
  /\ (debugEl (run t evs) = None <-> debugEl t = None).
Proof.
  induction evs as [ | ev evs IH]; intros t.
  - split; [ reflexivity | tauto ].
  - change (run t (ev :: evs)) with (run (step t ev) evs).
    change (run (erase_debug t) (ev :: evs))
      with (run (step (erase_debug t) ev) evs).
    destruct (IH (step t ev)) as [E D].
    split; [ now rewrite E, step_erase_debug | ].
    rewrite D. clear.
    destruct ev as [rect x y | rect touches | e | | ]; simpl; try tauto.
    + unfold updateDebug. destruct (debugEl t); split; congruence.
    + unfold handleTouch. destruct touches as [[ | p ps] | ]; simpl; try tauto.
      unfold updateDebug. destruct (debugEl t); split; congruence.
    + unfold handleOrientation. destruct (useOrientation t); simpl; [ | tauto ].
      destruct (debugEl t); split; congruence.
Qed.

Lemma setFromClient_overlay (rect : DOMRect) (x y : number) (t : Tracker) :
  overlay_names_image (setFromClient rect x y t).
Proof.
  unfold overlay_names_image, setFromClient. cbn [img_src basePath debugEl].
  eexists. split; [ reflexivity | ].
  unfold updateDebug. destruct (debugEl t); [ | exact I ].
  exists ("Mouse: (" ++ round_to_string (x - left rect)%js ++ ", "
            ++ round_to_string (y - top rect)%js ++ ")")%string.
  rewrite !append_assoc. reflexivity.
Qed.

Lemma step_overlay (t : Tracker) (ev : Event) :
  overlay_names_image t -> overlay_names_image (step t ev).
Proof.
  intros H. destruct ev as [rect x y | rect touches | e | | ]; simpl.
  - apply setFromClient_overlay.
  - unfold handleTouch. destruct touches as [[ | p ps] | ]; try exact H.
    exact (setFromClient_overlay rect (touch_clientX p) (touch_clientY p) t).
  - unfold handleOrientation. destruct (useOrientation t); simpl negb; cbv iota;
      [ | exact H ].
    unfold overlay_names_image. cbn [img_src basePath debugEl].
    eexists. split; [ reflexivity | ].
    destruct (debugEl t); [ | exact I ].
    eexists. rewrite <- !append_assoc. reflexivity.
  - exact H.
  - exact H.
Qed.

(** X19.  After any events, the debug overlay, when there is one, ends with
    the file name of the image that is shown. *)
Theorem overlay_always_names_image (c : Container) (rect : DOMRect)
    (evs : list Event) :
  overlay_names_image (run (initializeFaceTracker c rect) evs).
Proof.
  assert (G : forall evs t, overlay_names_image t -> overlay_names_image (run t evs)).
  { clear. induction evs as [ | ev evs IH]; intros t H; [ exact H | ].
    change (run t (ev :: evs)) with (run (step t ev) evs).
    apply IH, step_overlay, H. }
  apply G. unfold initializeFaceTracker. apply setFromClient_overlay.
Qed.

Lemma step_grid (t : Tracker) (ev : Event) :
  finite_event ev ->
  shows_grid_asset t /\ finite_baseline t ->
  shows_grid_asset (step t ev) /\ finite_baseline (step t ev).
Proof.
  intros Hev [Hs Hb].
  destruct ev as [rect x y | rect touches | e | | ]; simpl in *.
  - destruct Hev as [Hr [Hx Hy]].
    split; [ | exact Hb ].
    destruct (setFromClient_grid rect x y t Hr Hx Hy)
      as [_ [_ [gx [gy [_ [_ [_ [_ [G1 [G2 [_ G]]]]]]]]]]].
    exists gx, gy. repeat split; assumption.
  - destruct Hev as [Hr Ht]. unfold handleTouch.
    destruct touches as [[ | p ps] | ]; try (split; assumption).
    destruct Ht as [Hx Hy]. split; [ | exact Hb ].
    destruct (setFromClient_grid rect _ _ t Hr Hx Hy)
      as [_ [_ [gx [gy [_ [_ [_ [_ [G1 [G2 [_ G]]]]]]]]]]].
    exists gx, gy. repeat split; assumption.
  - destruct Hev as [b [g ->]].
    destruct (useOrientation t) eqn:Hu.
    + destruct (nullable_or_zero_reading b) as [vb [Eb _]].
      destruct (nullable_or_zero_reading g) as [vg [Eg _]].
      destruct Hb as [b0 [g0 Hb]].
      assert (B : exists b1 g1,
                 (if hasCalibrated t then baseOrientation t
                  else {| beta := Fin vb; gamma := Fin vg |})
                 = {| beta := Fin b1; gamma := Fin g1 |}).
      { destruct (hasCalibrated t); [ exists b0, g0 | exists vb, vg ]; easy. }
      destruct B as [b1 [g1 B]].
      split.
      * destruct (handleOrientation_grid t b g vb vg b1 g1 Hu Eb Eg B)
          as [gx [gy [G1 [G2 [_ [_ G]]]]]].
        exists gx, gy. split; [ exact G1 | ]. split; [ exact G2 | ].
        rewrite G. unfold handleOrientation. rewrite Hu. reflexivity.
      * exists b1, g1. unfold handleOrientation. rewrite Hu. cbn [negb baseOrientation].
        change (e_beta (reading b g)) with (option_map Fin b).
        change (e_gamma (reading b g)) with (option_map Fin g).
        rewrite Eb, Eg. destruct (hasCalibrated t); exact B.
    + unfold handleOrientation. rewrite Hu. split; [ exact Hs | exact Hb ].
  - split; [ exact Hs | exact Hb ].
  - split; [ exact Hs | exact Hb ].
Qed.

(** X20.  An instance created on a container with a usable rectangle whose
    center the program computes as finite, and given only events with
    finite data on usable rectangles, always shows one of the assets of the
    grid. *)
Theorem always_shows_grid_asset (c : Container) (rect : DOMRect)
    (evs : list Event) :
  usable_rect rect ->
  finite_center rect ->
  Forall finite_event evs ->
  shows_grid_asset (run (initializeFaceTracker c rect) evs).
Proof.
  intros Hr Hc Hevs.
  assert (G : forall evs t, Forall finite_event evs ->
            shows_grid_asset t /\ finite_baseline t ->
            shows_grid_asset (run t evs) /\ finite_baseline (run t evs)).
  { clear. induction evs as [ | ev evs IH]; intros t Hf H; [ exact H | ].
    inversion Hf as [ | ? ? Hev Hrest]; subst.
    change (run t (ev :: evs)) with (run (step t ev) evs).
    apply IH; [ exact Hrest | now apply step_grid ]. }
  apply G; [ exact Hevs | ].
  split.
  - exists 0%Z, 0%Z. split; [ simpl; tauto | ]. split; [ simpl; tauto | ].
    exact (initializeFaceTracker_center c rect Hr Hc).
  - exists 0, 0. reflexivity.
Qed.

Lemma always_shows_grid_asset_witness :
  shows_grid_asset
    (run (initializeFaceTracker demo_container demo_rect)
         [EnableOrientation;
          DeviceOrientation (reading (Some (40 # 1)) None);
          Touch demo_rect (Some [mkTouch (Fin (7 # 2)) (Fin (99 # 1))])]).
Proof.
  apply (always_shows_grid_asset demo_container demo_rect).
  - exact demo_rect_usable.
  - split; vm_compute; reflexivity.
  - repeat constructor.
    + exists (Some (40 # 1)), None. reflexivity.
    + exact demo_rect_usable.
Defined.

Open Scope Q_scope.

(* ------------------------------------------------------------------ *)
(** ** The page *)

Open Scope string_scope.

Lemma dispatch_Forall (P : Tracker -> Prop) (f : nat -> Tracker -> Tracker)
    (ts : list Tracker) : forall i : nat,
  (forall j t, P t -> P (f j t)) ->
  Forall P ts -> Forall P (dispatch f i ts).
Proof.
  induction ts as [ | t ts IH]; intros i Hf H; simpl; [ constructor | ].
  inversion H; subst. constructor; [ now apply Hf | now apply IH ].
Qed.

Lemma dispatch_map (A : Type) (g : Tracker -> A) (f : nat -> Tracker -> Tracker)
    (ts : list Tracker) : forall i : nat,
  (forall j t, g (f j t) = g t) ->
  map g (dispatch f i ts) = map g ts.
Proof.
  induction ts as [ | t ts IH]; intros i Hf; simpl; [ reflexivity | ].
  now rewrite Hf, IH.
Qed.

Lemma handleTouch_off (rect : DOMRect) (touches : option (list TouchPoint))
    (t : Tracker) :
  useOrientation t = false -> useOrientation (handleTouch rect touches t) = false.
Proof. unfold handleTouch. destruct touches as [[ | p ps] | ]; auto. Qed.

Lemma handleOrientation_mode (e : OrientationEvent) (t : Tracker) :
  useOrientation (handleOrientation e t) = useOrientation t.
Proof. unfold handleOrientation. destruct (useOrientation t) eqn:E; simpl; auto. Qed.

Lemma Forall_map_off (f : Tracker -> Tracker) (ts : list Tracker) :
  (forall t, useOrientation (f t) = false) ->
  Forall (fun t => useOrientation t = false) (map f ts).
Proof. intros H. induction ts; simpl; constructor; auto. Qed.

Lemma enableOrientationMode_flag (pf : Platform) (p : Page) :
  isOrientationMode (fst (enableOrientationMode pf p)) = true.
Proof. unfold enableOrientationMode. now destruct (header_text p). Qed.

Lemma disableOrientationMode_off (pf : Platform) (p : Page) :
  all_off (fst (disableOrientationMode pf p)).
Proof.
  unfold disableOrientationMode, all_off.
  destruct (header_text p); simpl; now apply Forall_map_off.
Qed.

Lemma page_step_inv (pf : Platform) (p : Page) (ev : PageEvent) :
  mode_off_inv p -> mode_off_inv (page_step pf p ev).
Proof.
  unfold mode_off_inv. intros H.
  destruct ev as [rect_of x y | rect_of touches | e | | permission | message]; simpl.
  - intros Hm. unfold all_off. simpl. apply dispatch_Forall; [ | now apply H ].
    intros j t Ht. exact Ht.
  - intros Hm. unfold all_off. simpl. apply dispatch_Forall; [ | now apply H ].
    intros j t Ht. now apply handleTouch_off.
  - intros Hm. unfold all_off. simpl.
    specialize (H Hm). unfold all_off in H.
    induction H; simpl; constructor; [ now rewrite handleOrientation_mode | assumption ].
  - unfold click. destruct (isOrientationMode p) eqn:Hm; simpl.
    + intros _. apply disableOrientationMode_off.
    + destruct (has_requestPermission pf).
      * intros _. now apply H.
      * rewrite enableOrientationMode_flag. discriminate.
  - unfold permission_resolved. destruct (pending p) as [ | n]; [ exact H | ].
    destruct (String.eqb permission "granted").
    + assert (F := enableOrientationMode_flag pf (with_pending n p)).
      destruct (enableOrientationMode pf (with_pending n p)) as [p' [msg | ]];
        simpl in *; rewrite F; discriminate.
    + exact H.
  - unfold permission_rejected. destruct (pending p) as [ | n]; exact H.
Qed.

Lemma initializeFaceTracker_off (c : Container) (rect : DOMRect) :
  useOrientation (initializeFaceTracker c rect) = false.
Proof. reflexivity. Qed.

Lemma page_run_inv (pf : Platform) (evs : list PageEvent) : forall p : Page,
  mode_off_inv p -> mode_off_inv (page_run pf p evs).
Proof.
  induction evs as [ | ev evs IH]; intros p H; [ exact H | ].
  change (page_run pf p (ev :: evs)) with (page_run pf (page_step pf p ev) evs).
  apply IH, page_step_inv, H.
Qed.

Lemma page_load_inv (containers : list (Container * DOMRect)) (btn : string)
    (header : option string) : mode_off_inv (page_load containers btn header).
Proof.
  intros _. unfold all_off, page_load. simpl.
  induction containers; simpl; constructor; auto.
Qed.

(** X21.  On a loaded page, after any events, when the page's mode flag is
    off every instance has orientation mode off. *)
Theorem mode_flag_off_means_all_off (pf : Platform)
    (containers : list (Container * DOMRect)) (btn : string)
    (header : option string) (evs : list PageEvent) :
  let p := page_run pf (page_load containers btn header) evs in
  isOrientationMode p = false ->
  Forall (fun t => useOrientation t = false) (trackerInstances p).
Proof. intros p. apply page_run_inv, page_load_inv. Qed.

Lemma mode_flag_off_means_all_off_witness :
  let pf := {| has_requestPermission := false; null_property_message := "" |} in
  let p := page_run pf
             (page_load [(demo_container, demo_rect); (demo_container, demo_rect)]
                        "Enable Motion Tracking" (Some "Move your cursor"))
             [ButtonClick;
              WindowOrientation (reading (Some (10 # 1)) (Some (3 # 1)));
              ButtonClick] in
  isOrientationMode p = false
  /\ Forall (fun t => useOrientation t = false) (trackerInstances p).
Proof.
  intros pf p. split; [ reflexivity | ].
  apply (mode_flag_off_means_all_off pf
           [(demo_container, demo_rect); (demo_container, demo_rect)]
           "Enable Motion Tracking" (Some "Move your cursor")
           [ButtonClick;
            WindowOrientation (reading (Some (10 # 1)) (Some (3 # 1)));
            ButtonClick]).
  reflexivity.
Defined.

Lemma map_id_off (e : OrientationEvent) (ts : list Tracker) :
  Forall (fun t => useOrientation t = false) ts ->
  map (handleOrientation e) ts = ts.
Proof.
  induction 1 as [ | t ts Ht _ IH]; simpl; [ reflexivity | ].
  rewrite IH. f_equal. unfold handleOrientation. now rewrite Ht.
Qed.

(** X22.  On a loaded page whose mode flag is off, an orientation reading
    changes nothing at all, whatever happened before. *)
Theorem readings_ignored_until_enabled (pf : Platform)
    (containers : list (Container * DOMRect)) (btn : string)
    (header : option string) (evs : list PageEvent) (e : OrientationEvent) :
  let p := page_run pf (page_load containers btn header) evs in
  isOrientationMode p = false ->
  page_step pf p (WindowOrientation e) = p.
Proof.
  intros p Hm.
  assert (A : all_off p) by (apply (page_run_inv pf evs _ (page_load_inv _ _ _)), Hm).
  simpl. rewrite (map_id_off e _ A). now destruct p.
Qed.

Lemma readings_ignored_until_enabled_witness :
  let pf := {| has_requestPermission := true; null_property_message := "" |} in
  let p := page_run pf
             (page_load [(demo_container, demo_rect)]
                        "Enable Motion Tracking" None)
             [ButtonClick; PermissionResolved "denied"] in
  isOrientationMode p = false
  /\ page_step pf p (WindowOrientation (reading (Some (10 # 1)) None)) = p.
Proof.
  intros pf p. split; [ reflexivity | ].
  apply (readings_ignored_until_enabled pf [(demo_container, demo_rect)]
           "Enable Motion Tracking" None
           [ButtonClick; PermissionResolved "denied"]).
  reflexivity.
Defined.

(** X23.  When the platform asks for permission and the mode flag is off, a
    click answered by anything but [granted], or by a rejection, changes
    only the alerts (and the console for a rejection): the instances and the
    mode flag stay as they were and no request is left pending. *)
Theorem permission_refused (pf : Platform) (p : Page) (answer : string)
    (message : string) :
  isOrientationMode p = false ->
  has_requestPermission pf = true ->
  answer <> "granted" ->
  let denied := page_run pf p [ButtonClick; PermissionResolved answer] in
  let failed := page_run pf p [ButtonClick; PermissionRejected message] in
  denied
  = alert "Motion permission denied. Please enable it in your browser settings." p
  /\ failed
     = alert ("Error enabling motion tracking: " ++ message)
         (console_error "Error requesting device orientation permission:"
            message p)
  /\ trackerInstances denied = trackerInstances p
  /\ trackerInstances failed = trackerInstances p
  /\ isOrientationMode denied = false
  /\ isOrientationMode failed = false.
Proof.
  intros Hm Hp Ha denied failed.
  assert (E : String.eqb answer "granted" = false) by now apply String.eqb_neq.
  assert (D : denied
              = alert "Motion permission denied. Please enable it in your browser settings." p).
  { unfold denied. simpl. unfold click. rewrite Hm, Hp. simpl.
    unfold permission_resolved. simpl. rewrite E. now destruct p. }
  assert (F : failed
              = alert ("Error enabling motion tracking: " ++ message)
                  (console_error "Error requesting device orientation permission:"
                     message p)).
  { unfold failed. simpl. unfold click. rewrite Hm, Hp. simpl.
    unfold permission_rejected. simpl. now destruct p. }
  rewrite D, F. repeat split; assumption.
Qed.

Lemma permission_refused_witness :
  let pf := {| has_requestPermission := true; null_property_message := "" |} in
  let p := page_load [(demo_container, demo_rect)] "Enable Motion Tracking" None in
  page_run pf p [ButtonClick; PermissionResolved "denied"]
  = alert "Motion permission denied. Please enable it in your browser settings." p.
Proof.
  intros pf p.
  apply (permission_refused pf p "denied" "") ; [ reflexivity | reflexivity | ].
  discriminate.
Defined.

(** X24.  A touch switches orientation mode off in every instance but not
    in the page: the mode flag and the button keep saying that tilt mode is
    on.  The next click therefore only disables, and tilt mode comes back,
    uncalibrated, with the click after that. *)
Theorem touch_leaves_button_out_of_step (pf : Platform) (p : Page)
    (rect_of : nat -> DOMRect) (pt : TouchPoint) (pts : list TouchPoint) :
  isOrientationMode p = true ->
  has_requestPermission pf = false ->
  let p1 := page_step pf p (WindowTouch rect_of (Some (pt :: pts))) in
  let p2 := page_step pf p1 ButtonClick in
  let p3 := page_step pf p2 ButtonClick in
  (all_off p1 /\ isOrientationMode p1 = true
   /\ orientationBtn_text p1 = orientationBtn_text p)
  /\ (all_off p2 /\ isOrientationMode p2 = false)
  /\ (Forall (fun t => useOrientation t = true /\ hasCalibrated t = false)
        (trackerInstances p3)
      /\ isOrientationMode p3 = true).
Proof.
  intros Hm Hp p1 p2 p3.
  assert (A1 : all_off p1).
  { unfold p1, all_off. simpl. generalize 0%nat.
    induction (trackerInstances p) as [ | t ts IH]; intros i; simpl; constructor;
      [ reflexivity | apply IH ]. }
  assert (M1 : isOrientationMode p1 = true) by exact Hm.
  assert (E2 : p2 = fst (disableOrientationMode pf p1)).
  { unfold p2. simpl. unfold click. now rewrite M1. }
  assert (M2 : isOrientationMode p2 = false).
  { rewrite E2. unfold disableOrientationMode. now destruct (header_text p1). }
  assert (E3 : p3 = fst (enableOrientationMode pf p2)).
  { unfold p3. simpl. unfold click. now rewrite M2, Hp. }
  split; [ repeat split; assumption || reflexivity | ].
  split; [ split; [ rewrite E2; apply disableOrientationMode_off | exact M2 ] | ].
  rewrite E3. split; [ | apply enableOrientationMode_flag ].
  unfold enableOrientationMode.
  assert (G : Forall (fun t => useOrientation t = true /\ hasCalibrated t = false)
                (map enableOrientation (trackerInstances p2))).
  { induction (trackerInstances p2); simpl; constructor; auto. }
  destruct (header_text p2); exact G.
Qed.

Lemma touch_leaves_button_out_of_step_witness :
  let pf := {| has_requestPermission := false; null_property_message := "" |} in
  let p := page_step pf
             (page_load [(demo_container, demo_rect)] "Enable Motion Tracking"
                        (Some "Move your cursor"))
             ButtonClick in
  let p1 := page_step pf p
              (WindowTouch (fun _ => demo_rect)
                           (Some [mkTouch (num_of_Z 5) (num_of_Z 5)])) in
  isOrientationMode p = true
  /\ all_off p1 /\ isOrientationMode p1 = true.
Proof.
  intros pf p p1. split; [ reflexivity | ].
  destruct (touch_leaves_button_out_of_step pf p (fun _ => demo_rect)
              (mkTouch (num_of_Z 5) (num_of_Z 5)) [] eq_refl eq_refl)
    as [[A [M _]] _].
  split; [ exact A | exact M ].
Defined.

Lemma step_basePath_handleTouch (rect : DOMRect) (touches : option (list TouchPoint))
    (t : Tracker) : basePath (handleTouch rect touches t) = basePath t.
Proof. unfold handleTouch. destruct touches as [[ | p ps] | ]; reflexivity. Qed.

Lemma handleOrientation_basePath (e : OrientationEvent) (t : Tracker) :
  basePath (handleOrientation e t) = basePath t.
Proof. unfold handleOrientation. destruct (useOrientation t); reflexivity. Qed.

Lemma map_map_basePath (f : Tracker -> Tracker) (ts : list Tracker) :
  (forall t, basePath (f t) = basePath t) ->
  map basePath (map f ts) = map basePath ts.
Proof. intros H. induction ts; simpl; [ reflexivity | now rewrite H, IHts ]. Qed.

Lemma page_step_basePaths (pf : Platform) (p : Page) (ev : PageEvent) :
  map basePath (trackerInstances (page_step pf p ev))
  = map basePath (trackerInstances p).
Proof.
  destruct ev as [rect_of x y | rect_of touches | e | | permission | message]; simpl.
  - apply dispatch_map. reflexivity.
  - apply dispatch_map. intros. apply step_basePath_handleTouch.
  - apply map_map_basePath, handleOrientation_basePath.
  - unfold click. destruct (isOrientationMode p); simpl.
    + unfold disableOrientationMode. destruct (header_text p); simpl;
        now apply map_map_basePath.
    + destruct (has_requestPermission pf); [ reflexivity | ].
      unfold enableOrientationMode. destruct (header_text p); simpl;
        now apply map_map_basePath.
  - unfold permission_resolved. destruct (pending p) as [ | n]; [ reflexivity | ].
    destruct (String.eqb permission "granted"); [ | reflexivity ].
    unfold enableOrientationMode. destruct (header_text (with_pending n p)); simpl;
      now apply map_map_basePath.
  - unfold permission_rejected. destruct (pending p); reflexivity.
Qed.

(** X25.  No event of the page adds or removes an instance or changes the
    base path of one. *)
Theorem instances_keep_their_base_path (pf : Platform) (evs : list PageEvent) :
  forall p : Page,
    map basePath (trackerInstances (page_run pf p evs))
    = map basePath (trackerInstances p)
    /\ List.length (trackerInstances (page_run pf p evs))
       = List.length (trackerInstances p).
Proof.
  assert (G : forall p, map basePath (trackerInstances (page_run pf p evs))
                        = map basePath (trackerInstances p)).
  { induction evs as [ | ev evs IH]; intros p; [ reflexivity | ].
    change (page_run pf p (ev :: evs)) with (page_run pf (page_step pf p ev) evs).
    now rewrite IH, page_step_basePaths. }
  intros p. split; [ apply G | ].
  rewrite <- (length_map basePath), G. apply length_map.
Qed.

(** X26.  On a page without a header element, a granted permission enables
    orientation mode in every instance, sets the mode flag and the button
    text, and then reports [Error enabling motion tracking] with the message
    of the exception raised by the write to the missing header. *)
Theorem missing_header_reports_error_but_enables (pf : Platform) (p : Page) :
  isOrientationMode p = false ->
  has_requestPermission pf = true ->
  header_text p = None ->
  let p' := page_run pf p [ButtonClick; PermissionResolved "granted"] in
  Forall (fun t => useOrientation t = true /\ hasCalibrated t = false)
         (trackerInstances p')
  /\ isOrientationMode p' = true
  /\ orientationBtn_text p' = "Disable Motion Tracking"
  /\ header_text p' = None
  /\ alerts p'
     = ("Error enabling motion tracking: " ++ null_property_message pf) :: alerts p.
Proof.
  intros Hm Hp Hh p'. unfold p'. simpl. unfold click. rewrite Hm, Hp. simpl.
  unfold permission_resolved. simpl. unfold enableOrientationMode. simpl.
  rewrite Hh. simpl. repeat split.
  induction (trackerInstances p); simpl; constructor; auto.
Qed.

Lemma missing_header_reports_error_but_enables_witness :
  let pf := {| has_requestPermission := true;
               null_property_message := "header is null" |} in
  let p := page_load [(demo_container, demo_rect)] "Enable Motion Tracking" None in
  let p' := page_run pf p [ButtonClick; PermissionResolved "granted"] in
  isOrientationMode p' = true
  /\ alerts p' = ["Error enabling motion tracking: header is null"].
Proof.
  intros pf p p'.
  destruct (missing_header_reports_error_but_enables pf p eq_refl eq_refl eq_refl)
    as [_ [M [_ [_ A]]]].
  split; [ exact M | exact A ].
Defined.

